(** * keycloak-proxy, [misc.go]: cookie censoring, redirect state codec,
      cookie lifetime and request disposition

    A shallow embedding of the functions of [misc.go] together with the
    parts of the Go standard library they call ([encoding/base64],
    [strings], [path], [net/http] cookies, [context], [time]), the
    properties of the specification proved about them, and further
    properties of the code (its replies, scopes, states and cookies). *)

From Stdlib Require Import NArith ZArith Ascii String List Lia Bool.
From stdpp Require Import base option list gmap strings.
Import ListNotations.

Local Ltac Zify.zify_post_hook ::= Z.to_euclidean_division_equations.

(** A Go [string] is a sequence of bytes; [ascii] is an 8-bit character, so
    Rocq's [string] has the same values.  A Go [[]byte] is a [list ascii]. *)

Definition uint (b : ascii) : N := N_of_ascii b.

(** [byte(x)] on an unsigned integer keeps the low eight bits. *)
Definition byte_of (x : N) : ascii := ascii_of_N (N.land x 255).

(** ** [strings] *)

Module strings.

Fixpoint HasPrefix (s prefix : string) {struct prefix} : bool :=
  match prefix, s with
  | EmptyString, _ => true
  | String p prefix', String c s' => Ascii.eqb c p && HasPrefix s' prefix'
  | String _ _, EmptyString => false
  end.

(** [s[n:]] for [n <= len(s)]. *)
Fixpoint slice_from (n : nat) (s : string) : string :=
  match n, s with
  | O, _ => s
  | S n', String _ s' => slice_from n' s'
  | S _, EmptyString => EmptyString
  end.

(** [TrimPrefix] returns [s] without the leading [prefix]; when [s] does
    not start with [prefix], [s] is returned unchanged. *)
Definition TrimPrefix (s prefix : string) : string :=
  if HasPrefix s prefix then slice_from (String.length prefix) s else s.

End strings.

(** ** [encoding/base64], for [RawURLEncoding]

    [RawURLEncoding] is the URL-safe alphabet of RFC 4648 without padding
    ([padChar = NoPadding]) and without strict mode. *)

Module base64.

Definition encodeURL : string :=
  "ABCDEFGHIJKLMNOPQRSTUVWXYZabcdefghijklmnopqrstuvwxyz0123456789-_".

(** [enc.encode[i]], the 64-entry table of the encoding. *)
Definition encode (i : N) : ascii :=
  nth (N.to_nat i) (list_ascii_of_string encodeURL) zero.

(** [enc.decodeMap]: every entry starts as [0xFF], then
    [decodeMap[encoder[i]] = i] is stored for [i = 0 .. 63]. *)
Definition decodeMap : ascii -> N :=
  fold_left
    (fun (m : ascii -> N) (i : nat) =>
       fun c => if Ascii.eqb c (encode (N.of_nat i)) then N.of_nat i else m c)
    (seq 0 64) (fun _ => 255%N).

(** [Encode]: three source bytes become four characters; a final block of
    one or two bytes becomes two or three characters (no padding). *)
Fixpoint Encode (src : list ascii) : list ascii :=
  match src with
  | [] => []
  | [s0] =>
      let val := N.shiftl (uint s0) 16 in
      [ encode (N.land (N.shiftr val 18) 63);
        encode (N.land (N.shiftr val 12) 63) ]
  | [s0; s1] =>
      let val := N.lor (N.shiftl (uint s0) 16) (N.shiftl (uint s1) 8) in
      [ encode (N.land (N.shiftr val 18) 63);
        encode (N.land (N.shiftr val 12) 63);
        encode (N.land (N.shiftr val 6) 63) ]
  | s0 :: s1 :: s2 :: rest =>
      let val :=
        N.lor (N.lor (N.shiftl (uint s0) 16) (N.shiftl (uint s1) 8)) (uint s2) in
      encode (N.land (N.shiftr val 18) 63)
        :: encode (N.land (N.shiftr val 12) 63)
        :: encode (N.land (N.shiftr val 6) 63)
        :: encode (N.land val 63)
        :: Encode rest
  end.

Definition EncodeToString (src : list ascii) : string :=
  string_of_list_ascii (Encode src).

(** [CorruptInputError] carries the offset of the offending input byte. *)
Inductive error : Type := CorruptInputError (offset : Z).

(** The end of [decodeQuantum]: the [dlen] collected 6-bit values (missing
    ones are zero) are packed into a 24-bit value, of which [dlen - 1]
    bytes are written. *)
Definition quantum (dbuf : list N) : list ascii :=
  let d k := nth k dbuf 0%N in
  let val :=
    N.lor (N.lor (N.lor (N.shiftl (d 0%nat) 18) (N.shiftl (d 1%nat) 12))
                 (N.shiftl (d 2%nat) 6)) (d 3%nat) in
  firstn (length dbuf - 1)
    [ byte_of (N.shiftr val 16); byte_of (N.shiftr val 8); byte_of val ].

Definition is_newline (c : ascii) : bool :=
  Ascii.eqb c "010" || Ascii.eqb c "013".

(** [Decode] as one loop over the source: [si] is the index of the next
    byte, [dbuf] the values collected for the current quantum
    ([j = length dbuf]).  A byte of the alphabet is stored; a line feed or
    carriage return is skipped; since there is no padding character any
    other byte is corrupt input.  At the end of the source an empty
    quantum is fine, a single character is an error, two or three
    characters give one or two bytes. *)
Fixpoint Decode (src : list ascii) (si : Z) (dbuf : list N)
  : list ascii + error :=
  match src with
  | [] =>
      match length dbuf with
      | 0%nat => inl []
      | 1%nat => inr (CorruptInputError (si - 1))
      | _ => inl (quantum dbuf)
      end
  | c :: src' =>
      let out := decodeMap c in
      if N.eqb out 255 then
        if is_newline c then Decode src' (si + 1) dbuf
        else inr (CorruptInputError si)
      else
        let dbuf' := dbuf ++ [out] in
        if Nat.eqb (length dbuf') 4 then
          match Decode src' (si + 1) [] with
          | inl dst => inl (quantum dbuf' ++ dst)
          | inr e => inr e
          end
        else Decode src' (si + 1) dbuf'
  end.

(** [DecodeString]; on corrupt input only the error is kept here (Go also
    returns the bytes decoded so far, which [pathFromStateParam] drops). *)
Definition DecodeString (s : string) : list ascii + error :=
  Decode (list_ascii_of_string s) 0 [].

End base64.

(** ** [path] *)

Module path.

Fixpoint drop_slashes (l : list ascii) : list ascii :=
  match l with
  | c :: l' => if Ascii.eqb c "/" then drop_slashes l' else l
  | [] => []
  end.

Fixpoint until_slash (l : list ascii) : list ascii :=
  match l with
  | c :: l' => if Ascii.eqb c "/" then [] else c :: until_slash l'
  | [] => []
  end.

(** [Base] returns the last element of a path: trailing slashes are
    removed first; the empty path gives ["."], a path of slashes ["/"].
    The path is read from its end, hence the reversals. *)
Definition Base (p : string) : string :=
  match p with
  | EmptyString => "."
  | _ =>
      let stripped := drop_slashes (rev (list_ascii_of_string p)) in
      match until_slash stripped with
      | [] => "/"
      | last => string_of_list_ascii (rev last)
      end
  end.

End path.

(** ** [time]

    An instant is a number of nanoseconds on the time line; a [Duration] is
    a signed 64-bit number of nanoseconds.  [Sub] returns [t - u], and the
    minimum or maximum [Duration] when the difference does not fit. *)

Module time.

Definition Time : Type := Z.
Definition Duration : Type := Z.

Definition minDuration : Duration := (- 2 ^ 63)%Z.
Definition maxDuration : Duration := (2 ^ 63 - 1)%Z.

Definition Sub (t u : Time) : Duration :=
  if (t - u <? minDuration)%Z then minDuration
  else if (maxDuration <? t - u)%Z then maxDuration
  else (t - u)%Z.

(** [Until t] is [t.Sub(time.Now())]; the clock reading is [now]. *)
Definition Until (now t : Time) : Duration := Sub t now.

End time.

(** ** [net/http]: the request header and its cookies

    [textproto.TrimString], and from [net/http] the reading of the [Cookie]
    header ([readCookies] with its helpers) and the text that [AddCookie]
    writes ([sanitizeCookieName], [sanitizeCookieValue]). *)

Module textproto.

Definition isASCIISpace (b : ascii) : bool :=
  Ascii.eqb b " " || Ascii.eqb b "009" || Ascii.eqb b "010" || Ascii.eqb b "013".

Fixpoint trim_left (s : string) : string :=
  match s with
  | String c s' => if isASCIISpace c then trim_left s' else s
  | EmptyString => EmptyString
  end.

Fixpoint trim_right (s : string) : string :=
  match s with
  | String c s' =>
      match trim_right s' with
      | EmptyString => if isASCIISpace c then EmptyString else String c EmptyString
      | t => String c t
      end
  | EmptyString => EmptyString
  end.

(** [TrimString] returns [s] without leading and trailing ASCII space. *)
Definition TrimString (s : string) : string := trim_right (trim_left s).

End textproto.

Module http.

(** A cookie of a request: [Request.Cookies] fills in [Name] and [Value]
    only, and [Request.AddCookie] reads no other field. *)
Record Cookie : Type := { Name : string; Value : string }.

(** [strings.Cut] at a one-byte separator: the text before and after its
    first occurrence; all of [s] and the empty string when there is none. *)
Fixpoint Cut (s : string) (sep : ascii) : string * string :=
  match s with
  | EmptyString => (EmptyString, EmptyString)
  | String c s' =>
      if Ascii.eqb c sep then (EmptyString, s')
      else let (before, after) := Cut s' sep in (String c before, after)
  end.

(** The parts that the loop of [readCookies] cuts off a line at each [;]. *)
Fixpoint parts (line : string) : list string :=
  match line with
  | EmptyString => [EmptyString]
  | String c line' =>
      if Ascii.eqb c ";" then EmptyString :: parts line'
      else match parts line' with
           | p :: ps => String c p :: ps
           | [] => [String c EmptyString]
           end
  end.

(** [httpguts.IsTokenRune]: the characters of an HTTP token. *)
Definition isToken (c : ascii) : bool :=
  let n := N_of_ascii c in
  ((48 <=? n) && (n <=? 57) || (65 <=? n) && (n <=? 90)
   || (97 <=? n) && (n <=? 122))%N
  || existsb (Ascii.eqb c) (list_ascii_of_string "!#$%&'*+-.^_`|~").

Definition isCookieNameValid (raw : string) : bool :=
  negb (String.eqb raw "") && forallb isToken (list_ascii_of_string raw).

Definition validCookieValueByte (b : ascii) : bool :=
  let n := N_of_ascii b in
  ((32 <=? n) && (n <? 127))%N
  && negb (Ascii.eqb b "034") && negb (Ascii.eqb b ";") && negb (Ascii.eqb b "092").

Fixpoint last_byte (s : string) : option ascii :=
  match s with
  | EmptyString => None
  | String c EmptyString => Some c
  | String _ s' => last_byte s'
  end.

Fixpoint drop_last (s : string) : string :=
  match s with
  | EmptyString => EmptyString
  | String c EmptyString => EmptyString
  | String c s' => String c (drop_last s')
  end.

(** [parseCookieValue raw true]: a pair of surrounding double quotes is
    removed, then every byte must be a valid cookie value byte. *)
Definition parseCookieValue (raw : string) : option string :=
  let raw :=
    match raw with
    | String c (String _ _ as rest) =>
        if Ascii.eqb c "034" && bool_decide (last_byte rest = Some "034"%char)
        then drop_last rest else raw
    | _ => raw
    end in
  if forallb validCookieValueByte (list_ascii_of_string raw) then Some raw
  else None.

(** One part of a [Cookie] line; [None] when the part is skipped. *)
Definition readCookiePart (part : string) : option Cookie :=
  let part := textproto.TrimString part in
  if String.eqb part "" then None
  else
    let (name, val) := Cut part "=" in
    let name := textproto.TrimString name in
    if negb (isCookieNameValid name) then None
    else match parseCookieValue val with
         | Some val => Some {| Name := name; Value := val |}
         | None => None
         end.

Definition readCookieLine (line : string) : list Cookie :=
  omap readCookiePart (parts (textproto.TrimString line)).

(** [readCookies h ""]: the cookies of all [Cookie] lines of the header. *)
Definition readCookies (h : gmap string (list string)) : list Cookie :=
  match h !! "Cookie"%string with
  | Some lines => concat (map readCookieLine lines)
  | None => []
  end.

(** [Header.Get]: the first value of a key, or the empty string;
    [Header.Set]: the key gets the single value.  The key [Cookie] is
    already in canonical form. *)
Definition Get (h : gmap string (list string)) (key : string) : string :=
  match h !! key with
  | Some (v :: _) => v
  | _ => EmptyString
  end.

Definition Set_ (h : gmap string (list string)) (key value : string)
  : gmap string (list string) :=
  <[key := [value]]> h.

(** [sanitizeCookieName]: line feeds and carriage returns become [-]. *)
Fixpoint sanitizeCookieName (n : string) : string :=
  match n with
  | EmptyString => EmptyString
  | String c n' =>
      String (if Ascii.eqb c "010" || Ascii.eqb c "013" then "-"%char else c)
        (sanitizeCookieName n')
  end.

Fixpoint keep_valid (v : string) : string :=
  match v with
  | EmptyString => EmptyString
  | String c v' =>
      if validCookieValueByte c then String c (keep_valid v') else keep_valid v'
  end.

(** [sanitizeCookieValue]: invalid bytes are dropped; a value with a space
    or a comma is put between double quotes. *)
Definition sanitizeCookieValue (v : string) : string :=
  let v := keep_valid v in
  if String.eqb v "" then v
  else if existsb (fun c => Ascii.eqb c " " || Ascii.eqb c ",")
            (list_ascii_of_string v)
       then String "034" (v +:+ String "034" EmptyString)
       else v.

End http.

(** ** The request scope, contexts and the world

    A [RequestScope] is shared by reference: the heap maps addresses to the
    scopes allocated so far, and a context stores a pointer. *)

(** Modelled from the spec: the scope of a request, a struct declared
    outside [misc.go]; [AccessDenied] is the field that [misc.go] and the
    specification use. *)
Record RequestScope : Type := { AccessDenied : bool }.

Inductive pointer : Type :=
| nil_ptr
| addr (l : nat).

(** A value of type [interface{}], as a context stores it: the nil
    interface, a [*RequestScope], or a value of another dynamic type. *)
Inductive any : Type :=
| nil_any
| scope_ptr (p : pointer)
| foreign (v : string).

(** Modelled from the spec: the context keys.  [contextScopeName] is the
    opaque key under which the request scope is kept; its declaration is
    not part of [misc.go]. *)
Inductive ContextKey : Type :=
| contextScopeName
| otherKey (name : string).

Definition ContextKey_eqb (a b : ContextKey) : bool :=
  match a, b with
  | contextScopeName, contextScopeName => true
  | otherKey x, otherKey y => String.eqb x y
  | _, _ => false
  end.

(** A context is the chain of its [WithValue] bindings, newest first. *)
Definition Context : Type := list (ContextKey * any).

Fixpoint Value (ctx : Context) (key : ContextKey) : any :=
  match ctx with
  | [] => nil_any
  | (k, v) :: parent => if ContextKey_eqb k key then v else Value parent key
  end.

Definition WithValue (parent : Context) (key : ContextKey) (val : any) : Context :=
  (key, val) :: parent.

(** What the engine does to its collaborators, in order:
    [w.WriteHeader(code)], [http.Redirect(w, req, url, code)] (the reply
    with that status whose [Location] header is made from [url]),
    [r.Render(w, name, tags)] and [r.log.Error(msg, fields...)]. *)
Inductive event : Type :=
| WriteHeader (code : Z)
| HttpRedirect (url : string) (code : Z)
| RenderTemplate (name : string) (tags : gmap string string)
| LogError (msg : string) (fields : list (string * string)).

Record World : Type := {
  heap : list RequestScope;
  trace : list event;
  clock : time.Time
}.

(** The status codes written to the response, and the redirect targets. *)
Fixpoint status_codes (tr : list event) : list Z :=
  match tr with
  | [] => []
  | WriteHeader code :: tr' => code :: status_codes tr'
  | HttpRedirect _ code :: tr' => code :: status_codes tr'
  | _ :: tr' => status_codes tr'
  end.

Fixpoint locations (tr : list event) : list string :=
  match tr with
  | [] => []
  | HttpRedirect url _ :: tr' => url :: locations tr'
  | _ :: tr' => locations tr'
  end.

(** A call either returns a value in a new world or panics. *)
Inductive outcome (A : Type) : Type :=
| Returns (a : A) (σ : World)
| Panics (σ : World).
Arguments Returns {A} a σ.
Arguments Panics {A} σ.

Definition M (A : Type) : Type := World -> outcome A.

Definition ret {A : Type} (a : A) : M A := fun σ => Returns a σ.

Definition bind {A B : Type} (m : M A) (f : A -> M B) : M B :=
  fun σ => match m σ with
           | Returns a σ' => f a σ'
           | Panics σ' => Panics σ'
           end.

Definition panic {A : Type} : M A := fun σ => Panics σ.

Notation "'let*' x ':=' m 'in' k" := (bind m (fun x => k))
  (at level 10, x name, m at level 100, k at level 200).
Notation "m '>>' k" := (bind m (fun _ => k))
  (at level 90, right associativity).

Definition emit (e : event) : M unit :=
  fun σ => Returns tt {| heap := heap σ; trace := trace σ ++ [e]; clock := clock σ |}.

(** [&RequestScope{...}]: a new object at the next free address. *)
Definition new_scope (s : RequestScope) : M pointer :=
  fun σ => Returns (addr (length (heap σ)))
             {| heap := heap σ ++ [s]; trace := trace σ; clock := clock σ |}.

(** [scope.AccessDenied = b]: a nil pointer dereference panics. *)
Definition set_AccessDenied (p : pointer) (b : bool) : M unit :=
  match p with
  | nil_ptr => panic
  | addr l =>
      fun σ => Returns tt
        {| heap := <[l := {| AccessDenied := b |}]> (heap σ);
           trace := trace σ; clock := clock σ |}
  end.

Definition now : M time.Time := fun σ => Returns (clock σ) σ.

(** ** Configuration, proxy and request *)

(** The configuration fields that [misc.go] reads.  The methods
    [hasCustomForbiddenPage] and [WithOAuthURI] of [Config] are declared
    outside [misc.go]; they depend on the configuration only and are carried
    with it. *)
Record Config : Type := {
  AccessTokenDuration : time.Duration;
  NoRedirects : bool;
  SkipTokenVerification : bool;
  ForbiddenPage : string;
  Tags : gmap string string;
  hasCustomForbiddenPage : bool;
  WithOAuthURI : string -> string
}.

(** The proxy: its configuration, and the error (if any) that its template
    renderer [Render] returns for a template name and its variables. *)
Record oauthProxy : Type := {
  config : Config;
  Render : string -> gmap string string -> option string
}.

(** The request: its header, the result of [req.URL.RequestURI()] and its
    context. *)
Record Request : Type := {
  Header : gmap string (list string);
  RequestURI : string;
  Ctx : Context
}.

Definition StatusTemporaryRedirect : Z := 307.
Definition StatusUnauthorized : Z := 401.
Definition StatusForbidden : Z := 403.

(** Modelled from the spec: the path of the authorization handler, a
    constant declared outside [misc.go]; the specification gives the
    redirect target as [<oauth-base>/authorization?state=<encoded-state>]. *)
Definition authorizationURL : string := "/authorization".

(** ** Cookies of a request *)

(** [Request.Cookies] and [Request.AddCookie]: a cookie is appended to the
    single [Cookie] line of the header, after [; ] when the line is not
    empty. *)
Definition Cookies (req : Request) : list http.Cookie :=
  http.readCookies (Header req).

Definition AddCookie (req : Request) (c : http.Cookie) : Request :=
  let s :=
    http.sanitizeCookieName (http.Name c)
      +:+ ("=" +:+ http.sanitizeCookieValue (http.Value c)) in
  let cur := http.Get (Header req) "Cookie" in
  {| Header :=
       if negb (String.eqb cur "")
       then http.Set_ (Header req) "Cookie" (cur +:+ ("; " +:+ s))
       else http.Set_ (Header req) "Cookie" s;
     RequestURI := RequestURI req;
     Ctx := Ctx req |}.

(** ** The redirect state codec of [misc.go] *)

Definition PathParamPrefix : string := ":path:".

(** [generateStateParam]: the base64 (raw, URL-safe) text of
    [PathParamPrefix + uri]. *)
Definition generateStateParam (uri : string) : string :=
  let state := PathParamPrefix +:+ uri in
  base64.EncodeToString (list_ascii_of_string state).

(** [pathFromStateParam]: decodes the state; a decoding error is returned
    with the empty string, otherwise the decoded text without a leading
    [PathParamPrefix]. *)
Definition pathFromStateParam (state : string) : string * option base64.error :=
  match base64.DecodeString state with
  | inr err => (EmptyString, Some err)
  | inl decoded =>
      (strings.TrimPrefix (string_of_list_ascii decoded) PathParamPrefix, None)
  end.

(** ** The cookie censor of [misc.go] *)

(** The inner loop of [filterCookies]: at the first name of the filter that
    equals the cookie's name, the censored cookie is added and the loop
    stops; the result tells whether that happened. *)
Fixpoint censor_if_listed (req : Request) (x : http.Cookie) (filter : list string)
  : Request * bool :=
  match filter with
  | [] => (req, false)
  | n :: filter' =>
      if String.eqb (http.Name x) n then
        (AddCookie req {| http.Name := http.Name x; http.Value := "censored" |},
         true)
      else censor_if_listed req x filter'
  end.

(** The outer loop: a cookie that was not censored is added as it is. *)
Fixpoint rebuild_cookies (req : Request) (cookies : list http.Cookie)
    (filter : list string) : Request :=
  match cookies with
  | [] => req
  | x :: cookies' =>
      let (req', found) := censor_if_listed req x filter in
      rebuild_cookies (if found then req' else AddCookie req' x) cookies' filter
  end.

(** [filterCookies] censors the cookies whose name is in [filter]: the
    cookies are read, the [Cookie] header is emptied, and every cookie is
    added again.  The error is always [nil]. *)
Definition filterCookies (req : Request) (filter : list string)
  : Request * option string :=
  let cookies := Cookies req in
  let req :=
    {| Header := http.Set_ (Header req) "Cookie" "";
       RequestURI := RequestURI req; Ctx := Ctx req |} in
  (rebuild_cookies req cookies filter, None).

(** ** The disposition engine of [misc.go] *)

(** [revokeProxy] stops the middleware from proxying the request: the scope
    of the request context (a new one when the context has none) is marked
    denied and stored in the returned context.  The type assertion of [sc]
    to a pointer to [RequestScope] panics on a value of another type. *)
Definition revokeProxy (r : oauthProxy) (req : Request) : M Context :=
  let sc := Value (Ctx req) contextScopeName in
  let* scope :=
    match sc with
    | nil_any => new_scope {| AccessDenied := true |}
    | scope_ptr p => ret p
    | foreign _ => panic
    end in
  set_AccessDenied scope true >>
  ret (WithValue (Ctx req) contextScopeName (scope_ptr scope)).

(** [accessForbidden] answers 403, renders the custom forbidden page when
    there is one (a rendering error is logged), and revokes. *)
Definition accessForbidden (r : oauthProxy) (req : Request) : M Context :=
  emit (WriteHeader StatusForbidden) >>
  (if hasCustomForbiddenPage (config r) then
     let name := path.Base (ForbiddenPage (config r)) in
     emit (RenderTemplate name (Tags (config r))) >>
     match Render r name (Tags (config r)) with
     | Some err =>
         emit (LogError "failed to render the template"
                 [("error"%string, err); ("template"%string, name)])
     | None => ret tt
     end
   else ret tt) >>
  revokeProxy r req.

(** [redirectToURL] redirects the user and revokes. *)
Definition redirectToURL (r : oauthProxy) (url : string) (req : Request)
  : M Context :=
  emit (HttpRedirect url StatusTemporaryRedirect) >>
  revokeProxy r req.

(** [redirectToAuthorization] redirects the user to the authorization
    handler, unless redirects are switched off (401) or token verification
    is skipped (403). *)
Definition redirectToAuthorization (r : oauthProxy) (req : Request)
  : M Context :=
  if NoRedirects (config r) then
    emit (WriteHeader StatusUnauthorized) >>
    revokeProxy r req
  else
    let authQuery := "?state=" +:+ generateStateParam (RequestURI req) in
    if SkipTokenVerification (config r) then
      emit (LogError "refusing to redirection to authorization endpoint, skip token verification switched on" []) >>
      emit (WriteHeader StatusForbidden) >>
      revokeProxy r req
    else
      redirectToURL r (WithOAuthURI (config r) (authorizationURL +:+ authQuery)) req >>
      revokeProxy r req.

(** The disposition operations, and their execution. *)
Inductive disposition : Type :=
| RevokeProxy
| AccessForbidden
| RedirectToURL (url : string)
| RedirectToAuthorization.

Definition dispose (d : disposition) (r : oauthProxy) (req : Request)
  : M Context :=
  match d with
  | RevokeProxy => revokeProxy r req
  | AccessForbidden => accessForbidden r req
  | RedirectToURL url => redirectToURL r url req
  | RedirectToAuthorization => redirectToAuthorization r req
  end.

(** The scope that a context carries, read from the heap. *)
Definition scope_of (σ : World) (ctx : Context) : option RequestScope :=
  match Value ctx contextScopeName with
  | scope_ptr (addr l) => heap σ !! l
  | _ => None
  end.

(** A context as the proxy builds them: under the scope key there is
    nothing yet, or a pointer to an allocated [RequestScope]. *)
Definition scope_wellformed (σ : World) (ctx : Context) : bool :=
  match Value ctx contextScopeName with
  | nil_any => true
  | scope_ptr (addr l) => bool_decide (l < length (heap σ))%nat
  | _ => false
  end.

(** ** The cookie lifetime of [misc.go] *)

(** The identity decoded from a token ([oidc.Identity], declared outside
    [misc.go]); [ExpiresAt] is the only field that [misc.go] reads. *)
Record Identity : Type := { ExpiresAt : time.Time }.

Section CookieLifetime.

(** The type [jose.JWT] of a parsed token, and [parseToken], are declared
    outside [misc.go]: [parseToken] returns the token and its identity, or
    an error. *)
Variable JWT : Type.
Variable parseToken : string -> JWT * Identity + string.

(** [getAccessCookieExpiration]: the configured duration, or the time
    until the refresh token expires when that token can be decoded. *)
Definition getAccessCookieExpiration (r : oauthProxy) (token : JWT)
    (refresh : string) : M time.Duration :=
  let duration := AccessTokenDuration (config r) in
  match parseToken refresh with
  | inl (_, ident) =>
      let* t := now in
      ret (time.Until t (ExpiresAt ident))
  | inr _ => ret duration
  end.

End CookieLifetime.

(** ** Vocabulary of the statements

    *** Valid state text, in the words of the specification

    The specification calls an input valid encoded text when it has no
    malformed character (every character belongs to the URL-safe base64
    alphabet [A-Z a-z 0-9 - _]) and no wrong length for the block rule of the
    unpadded encoding (a length of the form [4n + 1] encodes nothing). *)

Definition in_alphabet (c : ascii) : bool :=
  let n := N_of_ascii c in
  ((65 <=? n) && (n <=? 90) || (97 <=? n) && (n <=? 122)
   || (48 <=? n) && (n <=? 57) || (n =? 45) || (n =? 95))%N.

Definition valid_state_text (s : string) : bool :=
  forallb in_alphabet (list_ascii_of_string s)
  && negb (Nat.eqb (String.length s mod 4) 1).

(** The input as the decoder reads it: line feeds and carriage returns are
    skipped by [base64.Decode]. *)
Definition kept (src : list ascii) : list ascii :=
  List.filter (fun c => negb (base64.is_newline c)) src.

Definition strip_newlines (s : string) : string :=
  string_of_list_ascii (kept (list_ascii_of_string s)).

(** The state of ["/admin"] followed by a line feed. *)
Definition state_with_newline : string :=
  "OnBhdGg6L2FkbWlu" +:+ String "010" "".

(** *** Cookies *)

(** What the specification asks of a cookie: the value of a cookie whose
    name is in the filter becomes ["censored"], any other cookie is
    unchanged. *)
Definition censored (filter : list string) (c : http.Cookie) : http.Cookie :=
  if bool_decide (http.Name c ∈ filter)
  then {| http.Name := http.Name c; http.Value := "censored" |}
  else c.

(** A cookie as [readCookies] returns them: a token for a name, valid
    bytes for a value. *)
Definition cookie_ok (c : http.Cookie) : bool :=
  http.isCookieNameValid (http.Name c)
  && forallb http.validCookieValueByte (list_ascii_of_string (http.Value c)).

(** The text that [AddCookie] writes for a cookie. *)
Definition cookie_text (c : http.Cookie) : string :=
  http.sanitizeCookieName (http.Name c)
    +:+ ("=" +:+ http.sanitizeCookieValue (http.Value c)).

(** The [Cookie] line after one more cookie text. *)
Definition append_cookie (cur s : string) : string :=
  if negb (String.eqb cur "") then cur +:+ ("; " +:+ s) else s.

(** A text that neither starts nor ends with ASCII space (and is not
    empty): [TrimString] leaves it as it is. *)
Definition tight (s : string) : Prop :=
  exists x rest d,
    s = String x rest /\ textproto.isASCIISpace x = false
    /\ http.last_byte s = Some d /\ textproto.isASCIISpace d = false.

(** *** Worlds, scopes and events *)

(** The world in which a call ends, whether it returns or panics. *)
Definition world_of {A : Type} (o : outcome A) : World :=
  match o with
  | Returns _ σ => σ
  | Panics σ => σ
  end.

(** Every scope whose [AccessDenied] flag is set in [σ] still exists in
    [σ'] with the flag set. *)
Definition flags_kept (σ σ' : World) : Prop :=
  forall l s, heap σ !! l = Some s -> AccessDenied s = true ->
    exists s', heap σ' !! l = Some s' /\ AccessDenied s' = true.

(** What may be stored under the scope key without making [revokeProxy]
    panic: nothing, or a non-nil pointer to a [RequestScope]. *)
Definition scope_usable (ctx : Context) : bool :=
  match Value ctx contextScopeName with
  | nil_any => true
  | scope_ptr (addr _) => true
  | _ => false
  end.

(** The request [req] with another request URI. *)
Definition with_RequestURI (req : Request) (uri : string) : Request :=
  {| Header := Header req; RequestURI := uri; Ctx := Ctx req |}.

(** The events of [σ'] that are not yet in [σ]. *)
Definition events_since (σ σ' : World) : list event :=
  drop (length (trace σ)) (trace σ').

(** The world [σ] after the events [evs]. *)
Definition record_events (σ : World) (evs : list event) : World :=
  {| heap := heap σ; trace := trace σ ++ evs; clock := clock σ |}.

(** The events of [accessForbidden] before it revokes. *)
Definition forbidden_events (r : oauthProxy) : list event :=
  WriteHeader StatusForbidden ::
  (if hasCustomForbiddenPage (config r) then
     let name := path.Base (ForbiddenPage (config r)) in
     RenderTemplate name (Tags (config r)) ::
     match Render r name (Tags (config r)) with
     | Some err =>
         [LogError "failed to render the template"
            [("error"%string, err); ("template"%string, name)]]
     | None => []
     end
   else []).

(** The target of the authorization redirect for a request URI. *)
Definition authorization_target (r : oauthProxy) (uri : string) : string :=
  WithOAuthURI (config r)
    (authorizationURL +:+ ("?state=" +:+ generateStateParam uri)).

(** The events of a disposition before it revokes. *)
Definition dispose_events (d : disposition) (r : oauthProxy) (req : Request)
  : list event :=
  match d with
  | RevokeProxy => []
  | AccessForbidden => forbidden_events r
  | RedirectToURL url => [HttpRedirect url StatusTemporaryRedirect]
  | RedirectToAuthorization =>
      if NoRedirects (config r) then [WriteHeader StatusUnauthorized]
      else if SkipTokenVerification (config r) then
        [LogError "refusing to redirection to authorization endpoint, skip token verification switched on" [];
         WriteHeader StatusForbidden]
      else [HttpRedirect (authorization_target r (RequestURI req))
              StatusTemporaryRedirect]
  end.

(** ** Sample values *)

Definition sample_config (noRedirects skipVerification : bool) : Config :=
  {| AccessTokenDuration := 1800000000000%Z;
     NoRedirects := noRedirects;
     SkipTokenVerification := skipVerification;
     ForbiddenPage := "";
     Tags := ∅;
     hasCustomForbiddenPage := false;
     WithOAuthURI := fun uri => "/oauth" +:+ uri |}.

Definition sample_proxy (noRedirects skipVerification : bool) : oauthProxy :=
  {| config := sample_config noRedirects skipVerification;
     Render := fun _ _ => None |}.

Definition sample_request (ctx : Context) : Request :=
  {| Header := ∅; RequestURI := "/secret?x=1"; Ctx := ctx |}.

Definition empty_world (t : time.Time) : World :=
  {| heap := []; trace := []; clock := t |}.

(** A clock reading about 2025 years after the origin of the time line. *)
Definition sample_now : time.Time := 63900000000000000000%Z.

Definition sample_cookie_request : Request :=
  {| Header := {[ "Cookie"%string := ["a=1; b=2; c=3"%string] ]};
     RequestURI := "/"; Ctx := [] |}.


(** *** Further vocabulary and sample values *)

(** A text without a slash. *)
Definition no_slash (s : string) : bool :=
  forallb (fun c => negb (Ascii.eqb c "/")) (list_ascii_of_string s).

(** A proxy with a custom forbidden page whose template fails to render. *)
Definition sample_forbidden_proxy : oauthProxy :=
  {| config :=
       {| AccessTokenDuration := 1800000000000%Z;
          NoRedirects := false;
          SkipTokenVerification := false;
          ForbiddenPage := "templates/forbidden.html.tmpl";
          Tags := ∅;
          hasCustomForbiddenPage := true;
          WithOAuthURI := fun uri => "/oauth" +:+ uri |};
     Render := fun _ _ => Some "no such template"%string |}.

(** A world with one scope, and a request whose context carries it. *)
Definition sample_scoped_world (denied : bool) : World :=
  {| heap := [{| AccessDenied := denied |}]; trace := []; clock := 0%Z |}.

Definition sample_scoped_request : Request :=
  sample_request [(otherKey "user", foreign "alice");
                  (contextScopeName, scope_ptr (addr 0))].


(** Two results of the decoder that agree: the same bytes, or an error on
    both sides (the offsets may differ). *)
Definition same_decoding (a b : list ascii + base64.error) : Prop :=
  match a, b with
  | inl x, inl y => x = y
  | inr _, inr _ => True
  | _, _ => False
  end.

(** The index of the first byte that the decoder neither stores nor skips:
    a byte outside the alphabet that is no line feed or carriage return. *)
Fixpoint first_corrupt (src : list ascii) : option nat :=
  match src with
  | [] => None
  | c :: src' =>
      if in_alphabet c || base64.is_newline c
      then option_map S (first_corrupt src')
      else Some 0%nat
  end.


(* ================================================================== *)
(** * Properties *)

(** ** Bit-level facts used by the codec *)

Lemma lor_disjoint_add (a b k : N) :
  (a mod 2 ^ k = 0)%N -> (b < 2 ^ k)%N -> N.lor a b = (a + b)%N.
Proof.
  intros Ha Hb.
  assert (Hland : N.land a b = 0%N).
  { apply N.bits_inj_0. intros n. rewrite N.land_spec.
    destruct (N.lt_ge_cases n k) as [Hlt | Hge].
    - rewrite <- (N.mod_pow2_bits_low a k n Hlt), Ha, N.bits_0. reflexivity.
    - destruct (N.eq_dec b 0%N) as [-> | Hb0].
      + rewrite N.bits_0. apply andb_false_r.
      + rewrite (N.bits_above_log2 b n), andb_false_r; [reflexivity |].
        apply N.lt_le_trans with k; [| exact Hge].
        apply N.log2_lt_pow2; lia. }
  rewrite <- (N.lxor_lor _ _ Hland). symmetry. apply N.add_nocarry_lxor, Hland.
Qed.

Lemma land_63 (x : N) : N.land x 63 = (x mod 64)%N.
Proof. change 63%N with (N.ones 6). apply N.land_ones. Qed.

Lemma land_255 (x : N) : N.land x 255 = (x mod 256)%N.
Proof. change 255%N with (N.ones 8). apply N.land_ones. Qed.

Lemma uint_bound (c : ascii) : (uint c < 256)%N.
Proof. apply N_ascii_bounded. Qed.

Lemma byte_of_uint (c : ascii) (x : N) : (x mod 256 = uint c)%N -> byte_of x = c.
Proof.
  intros H. unfold byte_of. rewrite land_255, H. apply ascii_N_embedding.
Qed.

(** The 24-bit value built from three bytes, and from four 6-bit values. *)
Lemma pack_bytes (b0 b1 b2 : N) :
  (b0 < 256)%N -> (b1 < 256)%N -> (b2 < 256)%N ->
  N.lor (N.lor (N.shiftl b0 16) (N.shiftl b1 8)) b2
  = (b0 * 65536 + b1 * 256 + b2)%N.
Proof.
  intros H0 H1 H2. rewrite !N.shiftl_mul_pow2.
  change (2 ^ 16)%N with 65536%N. change (2 ^ 8)%N with 256%N.
  rewrite (lor_disjoint_add (b0 * 65536) (b1 * 256) 16)
    by (change (2 ^ 16)%N with 65536%N; lia).
  apply (lor_disjoint_add _ b2 8); change (2 ^ 8)%N with 256%N; lia.
Qed.

Lemma pack_sextets (d0 d1 d2 d3 : N) :
  (d0 < 64)%N -> (d1 < 64)%N -> (d2 < 64)%N -> (d3 < 64)%N ->
  N.lor (N.lor (N.lor (N.shiftl d0 18) (N.shiftl d1 12)) (N.shiftl d2 6)) d3
  = (d0 * 262144 + d1 * 4096 + d2 * 64 + d3)%N.
Proof.
  intros H0 H1 H2 H3. rewrite !N.shiftl_mul_pow2.
  change (2 ^ 18)%N with 262144%N. change (2 ^ 12)%N with 4096%N.
  change (2 ^ 6)%N with 64%N.
  rewrite (lor_disjoint_add (d0 * 262144) (d1 * 4096) 18)
    by (change (2 ^ 18)%N with 262144%N; lia).
  rewrite (lor_disjoint_add _ (d2 * 64) 12)
    by (change (2 ^ 12)%N with 4096%N; lia).
  apply (lor_disjoint_add _ d3 6); change (2 ^ 6)%N with 64%N; lia.
Qed.

(** ** The base64 codec *)

Lemma decodeMap_encode (i : N) : (i < 64)%N -> base64.decodeMap (base64.encode i) = i.
Proof.
  intros Hi. rewrite <- (N2Nat.id i).
  assert (Hn : (N.to_nat i < 64)%nat) by lia.
  revert Hn. generalize (N.to_nat i). clear. intros n Hn.
  do 64 (destruct n as [| n]; [vm_compute; reflexivity |]). lia.
Qed.

(** One decoding step on a character of the alphabet. *)
Lemma Decode_encode (i : N) (rest : list ascii) (si : Z) (dbuf : list N) :
  (i < 64)%N ->
  base64.Decode (base64.encode i :: rest) si dbuf =
    if Nat.eqb (length (dbuf ++ [i])) 4 then
      match base64.Decode rest (si + 1) [] with
      | inl dst => inl (base64.quantum (dbuf ++ [i]) ++ dst)
      | inr e => inr e
      end
    else base64.Decode rest (si + 1) (dbuf ++ [i]).
Proof.
  intros Hi. cbn [base64.Decode]. rewrite (decodeMap_encode i Hi).
  destruct (N.eqb_spec i 255) as [E | _]; [lia | reflexivity].
Qed.

Lemma sextet_bound (x : N) : (N.land x 63 < 64)%N.
Proof. rewrite land_63. lia. Qed.

Lemma quantum_three (s0 s1 s2 : ascii) :
  let val := N.lor (N.lor (N.shiftl (uint s0) 16) (N.shiftl (uint s1) 8)) (uint s2) in
  base64.quantum
    [ N.land (N.shiftr val 18) 63; N.land (N.shiftr val 12) 63;
      N.land (N.shiftr val 6) 63; N.land val 63 ] = [s0; s1; s2].
Proof.
  intros val. unfold base64.quantum. cbn [nth length Nat.sub firstn].
  pose proof (uint_bound s0) as H0. pose proof (uint_bound s1) as H1.
  pose proof (uint_bound s2) as H2.
  rewrite pack_sextets by apply sextet_bound.
  subst val. rewrite pack_bytes by assumption.
  rewrite !land_63, !N.shiftr_div_pow2.
  change (2 ^ 18)%N with 262144%N. change (2 ^ 12)%N with 4096%N.
  change (2 ^ 6)%N with 64%N. change (2 ^ 16)%N with 65536%N.
  change (2 ^ 8)%N with 256%N.
  repeat f_equal; apply byte_of_uint; lia.
Qed.

Lemma quantum_two (s0 s1 : ascii) :
  let val := N.lor (N.shiftl (uint s0) 16) (N.shiftl (uint s1) 8) in
  base64.quantum
    [ N.land (N.shiftr val 18) 63; N.land (N.shiftr val 12) 63;
      N.land (N.shiftr val 6) 63 ] = [s0; s1].
Proof.
  intros val. unfold base64.quantum. cbn [nth length Nat.sub firstn].
  pose proof (uint_bound s0) as H0. pose proof (uint_bound s1) as H1.
  rewrite pack_sextets by (try apply sextet_bound; lia).
  assert (Hval : val = (uint s0 * 65536 + uint s1 * 256 + 0)%N).
  { subst val. rewrite <- (pack_bytes (uint s0) (uint s1) 0) by lia.
    symmetry. apply N.lor_0_r. }
  rewrite Hval, !land_63, !N.shiftr_div_pow2.
  change (2 ^ 18)%N with 262144%N. change (2 ^ 12)%N with 4096%N.
  change (2 ^ 6)%N with 64%N. change (2 ^ 16)%N with 65536%N.
  change (2 ^ 8)%N with 256%N.
  repeat f_equal; apply byte_of_uint; lia.
Qed.

Lemma quantum_one (s0 : ascii) :
  let val := N.shiftl (uint s0) 16 in
  base64.quantum
    [ N.land (N.shiftr val 18) 63; N.land (N.shiftr val 12) 63 ] = [s0].
Proof.
  intros val. unfold base64.quantum. cbn [nth length Nat.sub firstn].
  pose proof (uint_bound s0) as H0.
  rewrite pack_sextets by (try apply sextet_bound; lia).
  subst val. rewrite !land_63, !N.shiftr_div_pow2, !N.shiftl_mul_pow2.
  change (2 ^ 18)%N with 262144%N. change (2 ^ 12)%N with 4096%N.
  change (2 ^ 16)%N with 65536%N.
  repeat f_equal; apply byte_of_uint; lia.
Qed.

(** Induction over a byte slice three bytes at a time, as [Encode] reads it. *)
Lemma list_ind3 {A : Type} (P : list A -> Prop) :
  P [] -> (forall a, P [a]) -> (forall a b, P [a; b]) ->
  (forall a b c l, P l -> P (a :: b :: c :: l)) ->
  forall l, P l.
Proof.
  intros H0 H1 H2 H3 l.
  enough (H : P l /\ (forall a, P (a :: l)) /\ (forall a b, P (a :: b :: l)))
    by apply H.
  induction l as [| x l (IH0 & IH1 & IH2)]; [auto |].
  repeat split; auto.
Qed.

Lemma Decode_Encode (src : list ascii) (si : Z) :
  base64.Decode (base64.Encode src) si [] = inl src.
Proof.
  revert si. induction src as [| s0 | s0 s1 | s0 s1 s2 rest IH] using list_ind3;
    intros si.
  - reflexivity.
  - cbn [base64.Encode].
    rewrite !Decode_encode by apply sextet_bound. cbn [app length Nat.eqb].
    cbn [base64.Decode length]. f_equal. apply quantum_one.
  - cbn [base64.Encode].
    rewrite !Decode_encode by apply sextet_bound. cbn [app length Nat.eqb].
    cbn [base64.Decode length]. f_equal. apply quantum_two.
  - cbn [base64.Encode].
    rewrite !Decode_encode by apply sextet_bound. cbn [app length Nat.eqb].
    rewrite IH. f_equal. rewrite quantum_three. reflexivity.
Qed.

Lemma DecodeString_EncodeToString (src : list ascii) :
  base64.DecodeString (base64.EncodeToString src) = inl src.
Proof.
  unfold base64.DecodeString, base64.EncodeToString.
  rewrite list_ascii_of_string_of_list_ascii. apply Decode_Encode.
Qed.

(** ** [strings.TrimPrefix] *)

Lemma append_cons (c : ascii) (p s : string) :
  String c p +:+ s = String c (p +:+ s).
Proof. reflexivity. Qed.

Lemma append_nil (s : string) : "" +:+ s = s.
Proof. reflexivity. Qed.

Lemma HasPrefix_app (p s : string) : strings.HasPrefix (p +:+ s) p = true.
Proof.
  induction p as [| c p IH]; [reflexivity |].
  rewrite append_cons. cbn [strings.HasPrefix].
  rewrite Ascii.eqb_refl. exact IH.
Qed.

Lemma slice_from_app (p s : string) :
  strings.slice_from (String.length p) (p +:+ s) = s.
Proof. induction p as [| c p IH]; [reflexivity | exact IH]. Qed.

Lemma TrimPrefix_app (p s : string) : strings.TrimPrefix (p +:+ s) p = s.
Proof.
  unfold strings.TrimPrefix. rewrite HasPrefix_app. apply slice_from_app.
Qed.

Lemma TrimPrefix_absent (s p : string) :
  strings.HasPrefix s p = false -> strings.TrimPrefix s p = s.
Proof. intros H. unfold strings.TrimPrefix. rewrite H. reflexivity. Qed.

(** ** The redirect state codec *)

Example generateStateParam_admin :
  generateStateParam "/admin" = "OnBhdGg6L2FkbWlu".
Proof. reflexivity. Qed.

Example pathFromStateParam_admin :
  pathFromStateParam "OnBhdGg6L2FkbWlu" = ("/admin"%string, None).
Proof. reflexivity. Qed.

Example pathFromStateParam_without_prefix :
  pathFromStateParam "L2FkbWlu" = ("/admin"%string, None).
Proof. reflexivity. Qed.

Example pathFromStateParam_corrupt :
  pathFromStateParam "not-valid-base64!!"
  = (""%string, Some (base64.CorruptInputError 16)).
Proof. reflexivity. Qed.

Example Base_of_template :
  path.Base "templates/forbidden.html.tmpl" = "forbidden.html.tmpl"%string
  /\ path.Base "///" = "/"%string /\ path.Base "" = "."%string.
Proof. repeat split. Qed.

(** C1. Round trip: for every string [p], decoding the state produced for
    [p] gives back [p] and no error:
    [pathFromStateParam (generateStateParam p) = (p, nil)]. *)
Theorem pathFromStateParam_generateStateParam (p : string) :
  pathFromStateParam (generateStateParam p) = (p, None).
Proof.
  unfold pathFromStateParam, generateStateParam.
  rewrite DecodeString_EncodeToString, string_of_list_ascii_of_string.
  rewrite TrimPrefix_app. reflexivity.
Qed.

(** *** Which inputs decode *)

Lemma decodeMap_alphabet (c : ascii) :
  if in_alphabet c then (base64.decodeMap c < 64)%N
  else base64.decodeMap c = 255%N.
Proof.
  destruct c as [[] [] [] [] [] [] [] []]; vm_compute; reflexivity.
Qed.

Lemma newline_not_in_alphabet (c : ascii) :
  base64.is_newline c = true -> in_alphabet c = false.
Proof.
  unfold base64.is_newline. intros H. apply orb_true_iff in H.
  destruct H as [H | H]; apply Ascii.eqb_eq in H; subst c; reflexivity.
Qed.

Lemma Decode_succeeds_iff (src : list ascii) :
  forall (si : Z) (dbuf : list N), (length dbuf < 4)%nat ->
    (exists dst, base64.Decode src si dbuf = inl dst) <->
    forallb in_alphabet (kept src) = true
    /\ ((length dbuf + length (kept src)) mod 4 <> 1)%nat.
Proof.
  induction src as [| c src IH]; intros si dbuf Hlen.
  - cbn [base64.Decode kept List.filter forallb length].
    rewrite Nat.add_0_r.
    destruct dbuf as [| d0 [| d1 [| d2 [| d3 dbuf]]]]; cbn [length] in *;
      try lia.
    + split; [intros _; split; [reflexivity | cbn; lia] | eauto].
    + split; [intros [dst H]; discriminate | intros [_ H]; cbn in H; lia].
    + split; [intros _; split; [reflexivity | cbn; lia] | eauto].
    + split; [intros _; split; [reflexivity | cbn; lia] | eauto].
  - cbn [base64.Decode]. pose proof (decodeMap_alphabet c) as Hc.
    unfold kept. cbn [List.filter]. fold (kept src).
    destruct (in_alphabet c) eqn:Ealpha.
    + assert (Hnl : base64.is_newline c = false).
      { destruct (base64.is_newline c) eqn:E; [| reflexivity].
        apply newline_not_in_alphabet in E. congruence. }
      rewrite Hnl. cbn [negb forallb length]. rewrite Ealpha. cbn [andb].
      destruct (N.eqb_spec (base64.decodeMap c) 255) as [E | _]; [lia |].
      rewrite length_app. cbn [length].
      destruct (Nat.eqb_spec (length dbuf + 1) 4) as [E4 | N4].
      * specialize (IH (si + 1)%Z [] ltac:(cbn; lia)). cbn [length] in IH.
        rewrite <- (Nat.Div0.add_mod_idemp_l (length dbuf)).
        replace (length dbuf) with 3%nat by lia.
        change ((3 mod 4 + S (length (kept src))) mod 4)%nat
          with ((4 + length (kept src)) mod 4)%nat.
        replace ((4 + length (kept src)) mod 4)%nat
          with ((0 + length (kept src)) mod 4)%nat
          by (rewrite <- (Nat.Div0.add_mod_idemp_l 4); reflexivity).
        rewrite <- IH.
        destruct (base64.Decode src (si + 1) []) as [dst | e].
        -- split; eauto.
        -- split; intros [dst H]; discriminate.
      * specialize (IH (si + 1)%Z (dbuf ++ [base64.decodeMap c])).
        rewrite length_app in IH. cbn [length] in IH.
        replace (length dbuf + S (length (kept src)))%nat
          with (length dbuf + 1 + length (kept src))%nat by lia.
        apply IH. lia.
    + rewrite Hc. cbn [N.eqb Pos.eqb].
      destruct (base64.is_newline c) eqn:Enl; cbn [negb].
      * apply IH, Hlen.
      * cbn [forallb]. rewrite Ealpha. cbn [andb].
        split; [intros [dst H]; discriminate | intros [H _]; discriminate].
Qed.

Lemma length_string_of_list_ascii (l : list ascii) :
  String.length (string_of_list_ascii l) = length l.
Proof. induction l as [| c l IH]; [reflexivity | cbn; now rewrite IH]. Qed.

Lemma DecodeString_succeeds_iff (s : string) :
  (exists dst, base64.DecodeString s = inl dst) <->
  valid_state_text (strip_newlines s) = true.
Proof.
  unfold base64.DecodeString, valid_state_text, strip_newlines.
  rewrite (Decode_succeeds_iff _ 0%Z []) by (cbn; lia).
  rewrite list_ascii_of_string_of_list_ascii, length_string_of_list_ascii.
  cbn [length Nat.add]. rewrite andb_true_iff, negb_true_iff, Nat.eqb_neq.
  reflexivity.
Qed.

Lemma pathFromStateParam_error (state : string) :
  snd (pathFromStateParam state) <> None <->
  ~ exists dst, base64.DecodeString state = inl dst.
Proof.
  unfold pathFromStateParam.
  destruct (base64.DecodeString state) as [dst | e]; cbn [snd].
  - split; [intros H; now contradict H | intros H _; apply H; eauto].
  - split; [intros _ [dst H]; discriminate | intros _ H; discriminate].
Qed.

(** C6, as stated, fails: a state followed by a line feed is not valid
    unpadded URL-safe base64 text, and [pathFromStateParam] returns no
    error for it. *)
Lemma pathFromStateParam_accepts_newline :
  ~ (snd (pathFromStateParam state_with_newline) <> None
     <-> valid_state_text state_with_newline = false).
Proof.
  intros [_ H]. apply H; reflexivity.
Qed.

(** C6, amended. [pathFromStateParam] is a total function (it cannot
    panic).  It returns an error exactly when its input, once the line feeds
    and carriage returns that the decoder skips are removed, is not valid
    unpadded URL-safe base64 text; the error comes with the empty string.
    On a successful decode it returns no error and the decoded text without
    the prefix [":path:"] when the text starts with it, and the decoded text
    unchanged when it does not. *)
Theorem pathFromStateParam_spec (state : string) :
  (snd (pathFromStateParam state) <> None
   <-> valid_state_text (strip_newlines state) = false)
  /\ match base64.DecodeString state with
     | inr e => pathFromStateParam state = (""%string, Some e)
     | inl dst =>
         let decoded := string_of_list_ascii dst in
         snd (pathFromStateParam state) = None
         /\ if strings.HasPrefix decoded PathParamPrefix
            then decoded = PathParamPrefix +:+ fst (pathFromStateParam state)
            else fst (pathFromStateParam state) = decoded
     end.
Proof.
  split.
  - rewrite pathFromStateParam_error, DecodeString_succeeds_iff.
    destruct (valid_state_text (strip_newlines state)); split; congruence.
  - unfold pathFromStateParam.
    destruct (base64.DecodeString state) as [dst | e]; [| reflexivity].
    cbn [fst snd]. split; [reflexivity |].
    unfold strings.TrimPrefix.
    destruct (strings.HasPrefix (string_of_list_ascii dst) PathParamPrefix)
      eqn:E; [| reflexivity].
    generalize dependent (string_of_list_ascii dst). intros d E.
    revert d E. generalize PathParamPrefix as p.
    induction p as [| c p IH]; intros d E; [reflexivity |].
    destruct d as [| c' d]; [discriminate |].
    cbn [strings.HasPrefix] in E. apply andb_true_iff in E as [E1 E2].
    apply Ascii.eqb_eq in E1. subst c'.
    rewrite append_cons. cbn [String.length strings.slice_from].
    f_equal. apply IH, E2.
Qed.

(** ** The disposition engine *)

Lemma flags_kept_refl (σ : World) : flags_kept σ σ.
Proof. intros l s Hl Hs. eauto. Qed.

Lemma flags_kept_trans (σ1 σ2 σ3 : World) :
  flags_kept σ1 σ2 -> flags_kept σ2 σ3 -> flags_kept σ1 σ3.
Proof.
  intros H12 H23 l s Hl Hs.
  destruct (H12 l s Hl Hs) as (s2 & Hl2 & Hs2). eauto.
Qed.


Lemma flags_kept_alloc (σ : World) (s : RequestScope) (tr : list event) :
  flags_kept σ {| heap := heap σ ++ [s]; trace := tr; clock := clock σ |}.
Proof.
  intros l s0 Hl Hs. exists s0. split; [| exact Hs].
  cbn [heap]. apply lookup_app_l_Some, Hl.
Qed.

Lemma flags_kept_set (σ : World) (l : nat) (tr : list event) :
  flags_kept σ {| heap := <[l := {| AccessDenied := true |}]> (heap σ);
                  trace := tr; clock := clock σ |}.
Proof.
  intros l0 s Hl Hs. cbn [heap].
  destruct (decide (l = l0)) as [-> | Hne].
  - exists {| AccessDenied := true |}. split; [| reflexivity].
    apply list_lookup_insert_eq. eapply lookup_lt_Some, Hl.
  - exists s. split; [| exact Hs]. rewrite list_lookup_insert_ne; assumption.
Qed.

Lemma Value_WithValue (ctx : Context) (v : any) :
  Value (WithValue ctx contextScopeName v) contextScopeName = v.
Proof. reflexivity. Qed.

(** [revokeProxy], case by case on the value under the scope key. *)
Lemma revokeProxy_nil (r : oauthProxy) (req : Request) (σ : World) :
  Value (Ctx req) contextScopeName = nil_any ->
  revokeProxy r req σ =
    Returns
      (WithValue (Ctx req) contextScopeName (scope_ptr (addr (length (heap σ)))))
      {| heap := heap σ ++ [{| AccessDenied := true |}];
         trace := trace σ; clock := clock σ |}.
Proof.
  intros E. unfold revokeProxy. rewrite E.
  unfold bind, new_scope, set_AccessDenied, ret. cbn [heap trace clock].
  do 2 f_equal. apply list_insert_id.
  rewrite lookup_app_r by lia. rewrite Nat.sub_diag. reflexivity.
Qed.

Lemma revokeProxy_addr (r : oauthProxy) (req : Request) (σ : World) (l : nat) :
  Value (Ctx req) contextScopeName = scope_ptr (addr l) ->
  revokeProxy r req σ =
    Returns
      (WithValue (Ctx req) contextScopeName (scope_ptr (addr l)))
      {| heap := <[l := {| AccessDenied := true |}]> (heap σ);
         trace := trace σ; clock := clock σ |}.
Proof. intros E. unfold revokeProxy. rewrite E. reflexivity. Qed.

Lemma revokeProxy_nil_ptr (r : oauthProxy) (req : Request) (σ : World) :
  Value (Ctx req) contextScopeName = scope_ptr nil_ptr ->
  revokeProxy r req σ = Panics σ.
Proof. intros E. unfold revokeProxy. rewrite E. reflexivity. Qed.

Lemma revokeProxy_foreign (r : oauthProxy) (req : Request) (σ : World) (v : string) :
  Value (Ctx req) contextScopeName = foreign v ->
  revokeProxy r req σ = Panics σ.
Proof. intros E. unfold revokeProxy. rewrite E. reflexivity. Qed.

(** What [revokeProxy] guarantees when it returns: the events and the clock
    are untouched, flags that were set stay set, and the returned context
    points to a scope that is marked denied. *)
Lemma revokeProxy_returns (r : oauthProxy) (req : Request) (σ : World) :
  scope_usable (Ctx req) = true ->
  exists l σ',
    revokeProxy r req σ =
      Returns (WithValue (Ctx req) contextScopeName (scope_ptr (addr l))) σ'
    /\ trace σ' = trace σ /\ clock σ' = clock σ
    /\ flags_kept σ σ'
    /\ (length (heap σ) <= length (heap σ'))%nat
    /\ (Value (Ctx req) contextScopeName = nil_any -> l = length (heap σ))
    /\ (scope_wellformed σ (Ctx req) = true ->
        heap σ' !! l = Some {| AccessDenied := true |}).
Proof.
  unfold scope_usable, scope_wellformed. intros Hu.
  destruct (Value (Ctx req) contextScopeName) as [| [| l] | v] eqn:E;
    try discriminate.
  - eexists _, _. split; [apply revokeProxy_nil, E |].
    cbn [heap trace clock]. repeat split; auto.
    + apply flags_kept_alloc.
    + rewrite length_app. lia.
    + intros _. rewrite lookup_app_r by lia. rewrite Nat.sub_diag. reflexivity.
  - eexists _, _. split; [apply revokeProxy_addr, E |].
    cbn [heap trace clock]. repeat split; auto.
    + apply flags_kept_set.
    + rewrite length_insert. lia.
    + discriminate.
    + intros Hwf. apply bool_decide_eq_true in Hwf.
      apply list_lookup_insert_eq, Hwf.
Qed.

Lemma revokeProxy_panics (r : oauthProxy) (req : Request) (σ : World) :
  scope_usable (Ctx req) = false -> revokeProxy r req σ = Panics σ.
Proof.
  unfold scope_usable. intros Hu.
  destruct (Value (Ctx req) contextScopeName) as [| [| l] | v] eqn:E;
    try discriminate.
  - apply revokeProxy_nil_ptr, E.
  - eapply revokeProxy_foreign, E.
Qed.

Lemma emit_bind {A : Type} (e : event) (m : M A) (σ : World) :
  (emit e >> m) σ = m (record_events σ [e]).
Proof. reflexivity. Qed.

Lemma record_events_app (σ : World) (evs evs' : list event) :
  record_events (record_events σ evs) evs' = record_events σ (evs ++ evs').
Proof. unfold record_events. cbn. rewrite app_assoc. reflexivity. Qed.

Lemma events_since_record (σ σ' : World) (evs : list event) :
  trace σ' = trace (record_events σ evs) -> events_since σ σ' = evs.
Proof.
  unfold events_since. intros ->. cbn [record_events trace].
  apply drop_app_length.
Qed.


Lemma accessForbidden_revokes (r : oauthProxy) (req : Request) (σ : World) :
  accessForbidden r req σ = revokeProxy r req (record_events σ (forbidden_events r)).
Proof.
  unfold accessForbidden, forbidden_events.
  destruct (hasCustomForbiddenPage (config r));
    [destruct (Render r _ (Tags (config r))) |];
    unfold bind, emit, ret, record_events; cbn [heap trace clock app];
    rewrite <- ?app_assoc; reflexivity.
Qed.

Lemma redirectToURL_revokes (r : oauthProxy) (url : string) (req : Request)
    (σ : World) :
  redirectToURL r url req σ =
    revokeProxy r req (record_events σ [HttpRedirect url StatusTemporaryRedirect]).
Proof. reflexivity. Qed.

Lemma scope_wellformed_usable (σ : World) (ctx : Context) :
  scope_wellformed σ ctx = true -> scope_usable ctx = true.
Proof.
  unfold scope_wellformed, scope_usable.
  destruct (Value ctx contextScopeName) as [| [| l] | v]; auto.
Qed.

Lemma scope_wellformed_grows (σ σ' : World) (ctx : Context) :
  (length (heap σ) <= length (heap σ'))%nat ->
  scope_wellformed σ ctx = true -> scope_wellformed σ' ctx = true.
Proof.
  unfold scope_wellformed. intros Hle.
  destruct (Value ctx contextScopeName) as [| [| l] | v]; auto.
  rewrite !bool_decide_eq_true. lia.
Qed.


Lemma redirectToAuthorization_cases (r : oauthProxy) (req : Request) (σ : World) :
  redirectToAuthorization r req σ =
    if NoRedirects (config r) then
      revokeProxy r req (record_events σ [WriteHeader StatusUnauthorized])
    else if SkipTokenVerification (config r) then
      revokeProxy r req
        (record_events σ
           [LogError "refusing to redirection to authorization endpoint, skip token verification switched on" [];
            WriteHeader StatusForbidden])
    else
      (redirectToURL r (authorization_target r (RequestURI req)) req
       >> revokeProxy r req) σ.
Proof.
  unfold redirectToAuthorization.
  destruct (NoRedirects (config r)); [reflexivity |].
  destruct (SkipTokenVerification (config r)); [| reflexivity].
  rewrite !emit_bind, record_events_app. reflexivity.
Qed.






Lemma revokeProxy_wellformed (r : oauthProxy) (req : Request) (σ : World) :
  scope_wellformed σ (Ctx req) = true ->
  exists ctx' σ',
    revokeProxy r req σ = Returns ctx' σ'
    /\ trace σ' = trace σ
    /\ clock σ' = clock σ
    /\ flags_kept σ σ'
    /\ (length (heap σ) <= length (heap σ'))%nat
    /\ scope_of σ' ctx' = Some {| AccessDenied := true |}.
Proof.
  intros Hwf.
  destruct (revokeProxy_returns r req σ (scope_wellformed_usable _ _ Hwf))
    as (l & σ' & Hrun & Htr & Hclk & Hkept & Hlen & _ & Hscope).
  eexists _, σ'. split; [exact Hrun |]. repeat split; auto.
Qed.

Lemma revokeProxy_twice (r : oauthProxy) (req : Request) (σ : World) :
  scope_wellformed σ (Ctx req) = true ->
  exists ctx' σ',
    (revokeProxy r req >> revokeProxy r req) σ = Returns ctx' σ'
    /\ trace σ' = trace σ
    /\ clock σ' = clock σ
    /\ flags_kept σ σ'
    /\ (length (heap σ) <= length (heap σ'))%nat
    /\ scope_of σ' ctx' = Some {| AccessDenied := true |}.
Proof.
  intros Hwf.
  destruct (revokeProxy_wellformed r req σ Hwf)
    as (ctx1 & σ1 & Hrun1 & Htr1 & Hclk1 & Hkept1 & Hlen1 & _).
  destruct (revokeProxy_wellformed r req σ1
              (scope_wellformed_grows _ _ _ Hlen1 Hwf))
    as (ctx2 & σ2 & Hrun2 & Htr2 & Hclk2 & Hkept2 & Hlen2 & Hscope).
  exists ctx2, σ2. unfold bind. rewrite Hrun1, Hrun2.
  repeat split; try congruence; [| lia].
  eapply flags_kept_trans; eassumption.
Qed.

(** Whether it returns or panics, [revokeProxy] keeps the flags that are
    set, and the events. *)
Lemma revokeProxy_world (r : oauthProxy) (req : Request) (σ : World) :
  flags_kept σ (world_of (revokeProxy r req σ))
  /\ trace (world_of (revokeProxy r req σ)) = trace σ.
Proof.
  destruct (scope_usable (Ctx req)) eqn:Hu.
  - destruct (revokeProxy_returns r req σ Hu)
      as (l & σ' & Hrun & Htr & _ & Hkept & _).
    rewrite Hrun. auto.
  - rewrite (revokeProxy_panics r req σ Hu). split; [apply flags_kept_refl | reflexivity].
Qed.


(** Every disposition records its events and then revokes, once or (for
    the authorization redirect that is carried out) twice. *)
Lemma dispose_revokes (d : disposition) (r : oauthProxy) (req : Request)
    (σ : World) :
  dispose d r req σ =
    match d with
    | RevokeProxy => revokeProxy r req σ
    | RedirectToAuthorization =>
        if NoRedirects (config r) || SkipTokenVerification (config r) then
          revokeProxy r req (record_events σ (dispose_events d r req))
        else
          (revokeProxy r req >> revokeProxy r req)
            (record_events σ (dispose_events d r req))
    | _ => revokeProxy r req (record_events σ (dispose_events d r req))
    end.
Proof.
  destruct d as [| | url |]; cbn [dispose dispose_events].
  - reflexivity.
  - apply accessForbidden_revokes.
  - reflexivity.
  - rewrite redirectToAuthorization_cases.
    destruct (NoRedirects (config r)); [reflexivity |].
    destruct (SkipTokenVerification (config r)); reflexivity.
Qed.


Lemma dispose_wellformed (d : disposition) (r : oauthProxy) (req : Request)
    (σ : World) :
  scope_wellformed σ (Ctx req) = true ->
  exists ctx' σ',
    dispose d r req σ = Returns ctx' σ'
    /\ trace σ' = trace σ ++ dispose_events d r req
    /\ clock σ' = clock σ
    /\ scope_of σ' ctx' = Some {| AccessDenied := true |}.
Proof.
  intros Hwf.
  assert (Hwf' : scope_wellformed (record_events σ (dispose_events d r req))
                   (Ctx req) = true) by exact Hwf.
  assert (Honce : exists ctx' σ',
             revokeProxy r req (record_events σ (dispose_events d r req))
             = Returns ctx' σ'
             /\ trace σ' = trace σ ++ dispose_events d r req
             /\ clock σ' = clock σ
             /\ scope_of σ' ctx' = Some {| AccessDenied := true |}).
  { destruct (revokeProxy_wellformed r req _ Hwf')
      as (ctx' & σ' & Hrun & Htr & Hclk & _ & _ & Hscope).
    exists ctx', σ'. auto. }
  rewrite dispose_revokes. destruct d as [| | url |]; try exact Honce.
  - cbn [dispose_events]. rewrite app_nil_r.
    destruct (revokeProxy_wellformed r req σ Hwf)
      as (ctx' & σ' & Hrun & Htr & Hclk & _ & _ & Hscope).
    exists ctx', σ'. auto.
  - destruct (NoRedirects (config r) || SkipTokenVerification (config r));
      [exact Honce |].
    destruct (revokeProxy_twice r req _ Hwf')
      as (ctx' & σ' & Hrun & Htr & Hclk & _ & _ & Hscope).
    exists ctx', σ'. auto.
Qed.

Lemma scope_wellformed_nil (σ : World) (ctx : Context) :
  Value ctx contextScopeName = nil_any -> scope_wellformed σ ctx = true.
Proof. unfold scope_wellformed. intros ->. reflexivity. Qed.

Lemma revokeProxy_once_usable (r : oauthProxy) (req : Request) (σ : World) :
  scope_usable (Ctx req) = true ->
  exists l σ',
    revokeProxy r req σ =
      Returns (WithValue (Ctx req) contextScopeName (scope_ptr (addr l))) σ'
    /\ (Value (Ctx req) contextScopeName = nil_any ->
        (length (heap σ) <= l)%nat
        /\ heap σ' !! l = Some {| AccessDenied := true |}).
Proof.
  intros Hu.
  destruct (revokeProxy_returns r req σ Hu)
    as (l & σ' & Hrun & _ & _ & _ & _ & Hnil & Hscope).
  exists l, σ'. split; [exact Hrun |]. intros E. split.
  - rewrite (Hnil E). lia.
  - apply Hscope, scope_wellformed_nil, E.
Qed.

Lemma revokeProxy_twice_usable (r : oauthProxy) (req : Request) (σ : World) :
  scope_usable (Ctx req) = true ->
  exists l σ',
    (revokeProxy r req >> revokeProxy r req) σ =
      Returns (WithValue (Ctx req) contextScopeName (scope_ptr (addr l))) σ'
    /\ (Value (Ctx req) contextScopeName = nil_any ->
        (length (heap σ) <= l)%nat
        /\ heap σ' !! l = Some {| AccessDenied := true |}).
Proof.
  intros Hu.
  destruct (revokeProxy_returns r req σ Hu)
    as (l1 & σ1 & Hrun1 & _ & _ & _ & Hlen1 & _).
  destruct (revokeProxy_once_usable r req σ1 Hu) as (l & σ' & Hrun & Hnil).
  exists l, σ'. unfold bind. rewrite Hrun1. split; [exact Hrun |].
  intros E. destruct (Hnil E) as [Hl Hs]. split; [lia | exact Hs].
Qed.

Lemma revokeProxy_twice_panics (r : oauthProxy) (req : Request) (σ : World) :
  scope_usable (Ctx req) = false ->
  (revokeProxy r req >> revokeProxy r req) σ = Panics σ.
Proof.
  intros Hu. unfold bind. rewrite (revokeProxy_panics r req σ Hu). reflexivity.
Qed.

Lemma dispose_usable (d : disposition) (r : oauthProxy) (req : Request)
    (σ : World) :
  scope_usable (Ctx req) = true ->
  exists l σ',
    dispose d r req σ =
      Returns (WithValue (Ctx req) contextScopeName (scope_ptr (addr l))) σ'
    /\ (Value (Ctx req) contextScopeName = nil_any ->
        (length (heap σ) <= l)%nat
        /\ heap σ' !! l = Some {| AccessDenied := true |}).
Proof.
  intros Hu. rewrite dispose_revokes.
  pose proof (revokeProxy_once_usable r req σ Hu) as Hnow.
  pose proof (revokeProxy_once_usable r req
                (record_events σ (dispose_events d r req)) Hu) as Honce.
  pose proof (revokeProxy_twice_usable r req
                (record_events σ (dispose_events d r req)) Hu) as Htwice.
  destruct d as [| | url |]; try assumption.
  destruct (NoRedirects (config r) || SkipTokenVerification (config r));
    assumption.
Qed.












(** ** The cookie lifetime *)

(** C8, as stated, fails: for an identity without expiry ([ExpiresAt] is the
    origin of the time line) and a clock about 2025 years later, the
    difference [ExpiresAt - now] does not fit a [Duration] and the minimum
    duration is returned. *)
Lemma getAccessCookieExpiration_saturates :
  getAccessCookieExpiration unit (fun _ => inl (tt, {| ExpiresAt := 0%Z |}))
    (sample_proxy false false) tt "refresh" (empty_world sample_now)
  = Returns time.minDuration (empty_world sample_now)
  /\ time.minDuration <> (0 - sample_now)%Z.
Proof. split; [reflexivity | discriminate]. Qed.

(** C8, amended. [getAccessCookieExpiration] returns the configured
    [AccessTokenDuration] unchanged when [parseToken] fails on the refresh
    token; when [parseToken] succeeds it returns [ExpiresAt - now] limited
    to the range of a [Duration] (so exactly [ExpiresAt - now], possibly
    negative, whenever that difference is a [Duration]).  It has no other
    effect: the world is unchanged. *)
Theorem getAccessCookieExpiration_spec
    (JWT : Type) (parseToken : string -> JWT * Identity + string)
    (r : oauthProxy) (token : JWT) (refresh : string) (σ : World) :
  getAccessCookieExpiration JWT parseToken r token refresh σ =
    Returns
      match parseToken refresh with
      | inr _ => AccessTokenDuration (config r)
      | inl (_, ident) =>
          Z.max time.minDuration
            (Z.min time.maxDuration (ExpiresAt ident - clock σ))
      end σ
  /\ match parseToken refresh with
     | inr _ => True
     | inl (_, ident) =>
         (time.minDuration <= ExpiresAt ident - clock σ <= time.maxDuration)%Z ->
         getAccessCookieExpiration JWT parseToken r token refresh σ
         = Returns (ExpiresAt ident - clock σ)%Z σ
     end.
Proof.
  unfold getAccessCookieExpiration.
  destruct (parseToken refresh) as [[tk ident] | err]; [| split; reflexivity].
  unfold bind, now, ret, time.Until, time.Sub.
  assert (Hmm : (time.minDuration <= time.maxDuration)%Z) by (cbv; discriminate).
  split.
  - f_equal.
    destruct (Z.ltb_spec (ExpiresAt ident - clock σ) time.minDuration);
      [lia |].
    destruct (Z.ltb_spec time.maxDuration (ExpiresAt ident - clock σ)); lia.
  - intros [Hlo Hhi]. f_equal.
    destruct (Z.ltb_spec (ExpiresAt ident - clock σ) time.minDuration);
      [lia |].
    destruct (Z.ltb_spec time.maxDuration (ExpiresAt ident - clock σ)); lia.
Qed.

(** ** The cookie censor *)

Example filterCookies_masks :
  Cookies (fst (filterCookies sample_cookie_request ["b"%string]))
  = [ {| http.Name := "a"; http.Value := "1" |};
      {| http.Name := "b"; http.Value := "censored" |};
      {| http.Name := "c"; http.Value := "3" |} ]
  /\ http.Get (Header (fst (filterCookies sample_cookie_request ["b"%string])))
       "Cookie" = "a=1; b=censored; c=3"%string.
Proof. split; vm_compute; reflexivity. Qed.

(** *** Bytes of names and values *)

Lemma isToken_facts (c : ascii) :
  http.isToken c = true ->
  Ascii.eqb c ";" = false /\ Ascii.eqb c "=" = false
  /\ textproto.isASCIISpace c = false
  /\ (Ascii.eqb c "010" || Ascii.eqb c "013") = false.
Proof.
  destruct c as [[] [] [] [] [] [] [] []]; vm_compute; intros H;
    first [discriminate H | repeat split; reflexivity].
Qed.

Lemma validCookieValueByte_facts (c : ascii) :
  http.validCookieValueByte c = true ->
  Ascii.eqb c ";" = false /\ Ascii.eqb c "034" = false
  /\ (textproto.isASCIISpace c = true -> Ascii.eqb c " " = true).
Proof.
  destruct c as [[] [] [] [] [] [] [] []]; vm_compute; intros H;
    first [discriminate H | repeat split; congruence].
Qed.

(** *** Strings *)

Lemma list_ascii_of_string_app (a b : string) :
  list_ascii_of_string (a +:+ b) = list_ascii_of_string a ++ list_ascii_of_string b.
Proof.
  induction a as [| c a IH]; [reflexivity |].
  rewrite append_cons. cbn [list_ascii_of_string app]. now rewrite IH.
Qed.

Lemma append_assoc (a b c : string) : (a +:+ b) +:+ c = a +:+ (b +:+ c).
Proof.
  induction a as [| x a IH]; [reflexivity |].
  rewrite !append_cons. now rewrite IH.
Qed.

Lemma append_empty_r (a : string) : a +:+ "" = a.
Proof.
  induction a as [| x a IH]; [reflexivity |]. rewrite append_cons. now rewrite IH.
Qed.

Lemma append_eq_empty (a b : string) : a +:+ b = ""%string -> a = ""%string /\ b = ""%string.
Proof. destruct a; [auto | rewrite append_cons; discriminate]. Qed.

Lemma last_byte_app (a b : string) :
  b <> ""%string -> http.last_byte (a +:+ b) = http.last_byte b.
Proof.
  intros Hb. induction a as [| c a IH]; [reflexivity |].
  rewrite append_cons. cbn [http.last_byte].
  destruct (a +:+ b) eqn:E; [| exact IH].
  apply append_eq_empty in E as [_ E]. contradiction.
Qed.

Lemma last_byte_In (s : string) (c : ascii) :
  http.last_byte s = Some c -> In c (list_ascii_of_string s).
Proof.
  induction s as [| x s IH]; [discriminate |].
  cbn [http.last_byte list_ascii_of_string]. destruct s as [| y s].
  - intros [= ->]. left. reflexivity.
  - intros H. right. apply IH, H.
Qed.

Lemma drop_last_app (a : string) (c : ascii) :
  http.drop_last (a +:+ String c "") = a.
Proof.
  induction a as [| x a IH]; [reflexivity |].
  rewrite append_cons. cbn [http.drop_last].
  destruct (a +:+ String c "") eqn:E.
  - apply append_eq_empty in E as [_ E]. discriminate.
  - now rewrite IH.
Qed.

Lemma trim_right_last (s : string) (c : ascii) :
  http.last_byte s = Some c -> textproto.isASCIISpace c = false ->
  textproto.trim_right s = s.
Proof.
  intros Hlast Hc. induction s as [| x s IH]; [reflexivity |].
  cbn [textproto.trim_right]. cbn [http.last_byte] in Hlast.
  destruct s as [| y s].
  - injection Hlast as ->. cbn [textproto.trim_right]. rewrite Hc. reflexivity.
  - rewrite (IH Hlast). reflexivity.
Qed.

Lemma trim_left_first (c : ascii) (s : string) :
  textproto.isASCIISpace c = false ->
  textproto.trim_left (String c s) = String c s.
Proof. intros H. cbn [textproto.trim_left]. now rewrite H. Qed.

Lemma TrimString_tight (c : ascii) (s : string) (d : ascii) :
  textproto.isASCIISpace c = false ->
  http.last_byte (String c s) = Some d -> textproto.isASCIISpace d = false ->
  textproto.TrimString (String c s) = String c s.
Proof.
  intros Hc Hlast Hd. unfold textproto.TrimString.
  rewrite (trim_left_first c s Hc). apply (trim_right_last _ d Hlast Hd).
Qed.

(** *** Cutting a line into parts *)

Lemma parts_nonempty (s : string) : http.parts s <> [].
Proof.
  destruct s as [| c s]; [discriminate |]. cbn [http.parts].
  destruct (Ascii.eqb c ";"); [discriminate |].
  destruct (http.parts s); discriminate.
Qed.

Lemma parts_no_semicolon (s : string) :
  forallb (fun c => negb (Ascii.eqb c ";")) (list_ascii_of_string s) = true ->
  http.parts s = [s].
Proof.
  induction s as [| c s IH]; [reflexivity |].
  cbn [list_ascii_of_string forallb http.parts]. intros H.
  apply andb_true_iff in H as [Hc Hs]. apply negb_true_iff in Hc.
  rewrite Hc, (IH Hs). reflexivity.
Qed.

Lemma parts_app_semicolon (a b : string) :
  http.parts (a +:+ String ";" b) = http.parts a ++ http.parts b.
Proof.
  induction a as [| c a IH].
  - rewrite append_nil. reflexivity.
  - rewrite append_cons. cbn [http.parts]. rewrite IH.
    destruct (Ascii.eqb c ";"); [reflexivity |].
    pose proof (parts_nonempty a) as Hne.
    destruct (http.parts a) as [| p ps]; [contradiction | reflexivity].
Qed.

Lemma Cut_app (n q : string) :
  forallb (fun c => negb (Ascii.eqb c "=")) (list_ascii_of_string n) = true ->
  http.Cut (n +:+ String "=" q) "=" = (n, q).
Proof.
  induction n as [| c n IH]; [reflexivity |].
  rewrite append_cons. cbn [list_ascii_of_string forallb http.Cut]. intros H.
  apply andb_true_iff in H as [Hc Hn]. apply negb_true_iff in Hc.
  rewrite Hc, (IH Hn). reflexivity.
Qed.

(** *** Names and values of well-formed cookies *)

Lemma forallb_weaken {A : Type} (P Q : A -> bool) (l : list A) :
  (forall x, P x = true -> Q x = true) ->
  forallb P l = true -> forallb Q l = true.
Proof.
  intros HPQ. rewrite !forallb_forall. auto.
Qed.

Lemma sanitizeCookieName_token (n : string) :
  forallb http.isToken (list_ascii_of_string n) = true ->
  http.sanitizeCookieName n = n.
Proof.
  induction n as [| c n IH]; [reflexivity |].
  cbn [list_ascii_of_string forallb http.sanitizeCookieName]. intros H.
  apply andb_true_iff in H as [Hc Hn].
  destruct (isToken_facts c Hc) as (_ & _ & _ & Hnl).
  rewrite Hnl, (IH Hn). reflexivity.
Qed.

Lemma keep_valid_id (v : string) :
  forallb http.validCookieValueByte (list_ascii_of_string v) = true ->
  http.keep_valid v = v.
Proof.
  induction v as [| c v IH]; [reflexivity |].
  cbn [list_ascii_of_string forallb http.keep_valid]. intros H.
  apply andb_true_iff in H as [Hc Hv]. rewrite Hc, (IH Hv). reflexivity.
Qed.

Lemma last_byte_is_Some (c : ascii) (s : string) :
  exists d, http.last_byte (String c s) = Some d.
Proof.
  revert c. induction s as [| x s IH]; intros c; [eexists; reflexivity |].
  destruct (IH x) as [d Hd]. exists d. exact Hd.
Qed.

Lemma TrimString_token (n : string) :
  http.isCookieNameValid n = true -> textproto.TrimString n = n.
Proof.
  unfold http.isCookieNameValid. intros H.
  apply andb_true_iff in H as [Hne Htok].
  destruct n as [| c n]; [discriminate |].
  destruct (last_byte_is_Some c n) as [d Hlast].
  assert (Hc : http.isToken c = true).
  { cbn [list_ascii_of_string forallb] in Htok.
    now apply andb_true_iff in Htok as [Hc _]. }
  assert (Hd : http.isToken d = true).
  { rewrite forallb_forall in Htok. apply Htok, last_byte_In, Hlast. }
  apply (TrimString_tight c n d); [apply (isToken_facts c Hc) | exact Hlast
                                  | apply (isToken_facts d Hd)].
Qed.

(** The three shapes of a sanitized value: empty, quoted, or as it is. *)
Lemma sanitizeCookieValue_ok (v : string) :
  forallb http.validCookieValueByte (list_ascii_of_string v) = true ->
  let q := http.sanitizeCookieValue v in
  http.parseCookieValue q = Some v
  /\ forallb (fun c => negb (Ascii.eqb c ";")) (list_ascii_of_string q) = true
  /\ (q = ""%string
      \/ exists d, http.last_byte q = Some d /\ textproto.isASCIISpace d = false).
Proof.
  intros Hv q. subst q. unfold http.sanitizeCookieValue.
  rewrite (keep_valid_id v Hv).
  assert (Hsemi : forallb (fun c => negb (Ascii.eqb c ";"))
                    (list_ascii_of_string v) = true).
  { revert Hv. apply forallb_weaken. intros c Hc.
    destruct (validCookieValueByte_facts c Hc) as (-> & _). reflexivity. }
  destruct (String.eqb_spec v "") as [-> | Hne].
  { split; [reflexivity | split; [reflexivity | left; reflexivity]]. }
  destruct (existsb (fun c => Ascii.eqb c " " || Ascii.eqb c ",")
              (list_ascii_of_string v)) eqn:Hq.
  - (* quoted *)
    split; [| split].
    + unfold http.parseCookieValue.
      destruct (v +:+ String "034" "") as [| y rest] eqn:E.
      { apply append_eq_empty in E as [_ E]. discriminate. }
      rewrite <- E. rewrite Ascii.eqb_refl.
      rewrite (last_byte_app v (String "034" "")) by discriminate.
      cbn [http.last_byte]. rewrite bool_decide_eq_true_2 by reflexivity.
      cbn [andb]. rewrite drop_last_app, Hv. reflexivity.
    + cbn [list_ascii_of_string forallb]. rewrite list_ascii_of_string_app.
      rewrite forallb_app, Hsemi. reflexivity.
    + right. exists "034"%char. split; [| reflexivity].
      change (String "034" (v +:+ String "034" ""))
        with (String "034" "" +:+ (v +:+ String "034" "")).
      rewrite <- append_assoc. apply last_byte_app. discriminate.
  - (* as it is *)
    split; [| split; [exact Hsemi |]].
    + unfold http.parseCookieValue.
      assert (Hraw : match v with
                     | String c (String _ _ as rest) =>
                         if Ascii.eqb c "034"
                            && bool_decide (http.last_byte rest = Some "034"%char)
                         then http.drop_last rest else v
                     | _ => v
                     end = v).
      { destruct v as [| c [| y rest]]; try reflexivity.
        cbn [list_ascii_of_string forallb] in Hv.
        apply andb_true_iff in Hv as [Hc _].
        destruct (validCookieValueByte_facts c Hc) as (_ & -> & _). reflexivity. }
      rewrite Hraw, Hv. reflexivity.
    + right. destruct v as [| c v]; [contradiction |].
      destruct (last_byte_is_Some c v) as [d Hd]. exists d. split; [exact Hd |].
      apply last_byte_In in Hd.
      assert (Hvalid : http.validCookieValueByte d = true).
      { rewrite forallb_forall in Hv. apply Hv, Hd. }
      destruct (textproto.isASCIISpace d) eqn:Hsp; [| reflexivity].
      destruct (validCookieValueByte_facts d Hvalid) as (_ & _ & Hspace).
      specialize (Hspace Hsp).
      assert (Hex : existsb (fun c => Ascii.eqb c " " || Ascii.eqb c ",")
                      (list_ascii_of_string (String c v)) = true).
      { apply existsb_exists. exists d. split; [exact Hd |].
        rewrite Hspace. reflexivity. }
      congruence.
Qed.

Lemma tight_TrimString (s : string) : tight s -> textproto.TrimString s = s.
Proof.
  intros (x & rest & d & -> & Hx & Hd & Hsp).
  apply (TrimString_tight x rest d); assumption.
Qed.

Lemma tight_nonempty (s : string) : tight s -> s <> ""%string.
Proof. intros (x & rest & d & -> & _). discriminate. Qed.

Lemma tight_app (a m b : string) : tight a -> tight b -> tight (a +:+ (m +:+ b)).
Proof.
  intros (x & rest & _ & -> & Hx & _) (y & rest' & d & -> & _ & Hd & Hsp).
  exists x, (rest +:+ (m +:+ String y rest')), d.
  split; [apply append_cons |]. split; [exact Hx |]. split; [| exact Hsp].
  rewrite <- append_assoc. rewrite last_byte_app by discriminate. exact Hd.
Qed.

(** Reading the text of a well-formed cookie gives the cookie back. *)
Lemma cookie_text_facts (c : http.Cookie) :
  cookie_ok c = true ->
  forallb (fun x => negb (Ascii.eqb x ";")) (list_ascii_of_string (cookie_text c))
    = true
  /\ tight (cookie_text c)
  /\ http.readCookiePart (cookie_text c) = Some c.
Proof.
  unfold cookie_ok. intros Hok. apply andb_true_iff in Hok as [Hname Hvalue].
  destruct c as [n v]. cbn [http.Name http.Value] in *.
  pose proof Hname as Hname'. unfold http.isCookieNameValid in Hname'.
  apply andb_true_iff in Hname' as [Hne Htok].
  destruct (sanitizeCookieValue_ok v Hvalue) as (Hparse & Hsemi & Hlast).
  unfold cookie_text. cbn [http.Name http.Value].
  rewrite (sanitizeCookieName_token n Htok).
  set (q := http.sanitizeCookieValue v) in *.
  assert (Hnosemi : forallb (fun x => negb (Ascii.eqb x ";"))
                      (list_ascii_of_string (n +:+ ("=" +:+ q))) = true).
  { rewrite !list_ascii_of_string_app, !forallb_app, Hsemi.
    cbn [list_ascii_of_string forallb]. rewrite !andb_true_r.
    revert Htok. apply forallb_weaken. intros x Hx.
    destruct (isToken_facts x Hx) as (-> & _). reflexivity. }
  assert (Htight : tight (n +:+ ("=" +:+ q))).
  { destruct n as [| x n]; [discriminate |].
    assert (Hx : http.isToken x = true).
    { cbn [list_ascii_of_string forallb] in Htok.
      now apply andb_true_iff in Htok as [Hx _]. }
    assert (Hend : exists d, http.last_byte ("=" +:+ q) = Some d
                             /\ textproto.isASCIISpace d = false).
    { destruct Hlast as [-> | (d & Hd & Hsp)].
      - exists "="%char. split; reflexivity.
      - exists d. split; [| exact Hsp].
        rewrite last_byte_app; [exact Hd |]. intros ->. discriminate. }
    destruct Hend as (d & Hd & Hsp).
    exists x, (n +:+ ("=" +:+ q)), d.
    split; [apply append_cons |]. split; [apply (isToken_facts x Hx) |].
    split; [| exact Hsp].
    rewrite last_byte_app; [exact Hd | discriminate]. }
  repeat split; try assumption.
  unfold http.readCookiePart. rewrite (tight_TrimString _ Htight).
  destruct (String.eqb_spec (n +:+ ("=" +:+ q)) "") as [E | _];
    [apply tight_nonempty in Htight; contradiction |].
  change ("=" +:+ q) with (String "=" q).
  rewrite Cut_app.
  - rewrite (TrimString_token n Hname), Hname. cbn [negb].
    rewrite Hparse. reflexivity.
  - revert Htok. apply forallb_weaken. intros x Hx.
    destruct (isToken_facts x Hx) as (_ & -> & _). reflexivity.
Qed.

(** *** What [readCookies] returns *)

Lemma parseCookieValue_valid (raw v : string) :
  http.parseCookieValue raw = Some v ->
  forallb http.validCookieValueByte (list_ascii_of_string v) = true.
Proof.
  unfold http.parseCookieValue.
  match goal with
  | |- (if forallb _ (list_ascii_of_string ?r) then _ else _) = _ -> _ =>
      destruct (forallb http.validCookieValueByte (list_ascii_of_string r))
        eqn:E; [intros [= <-]; exact E | discriminate]
  end.
Qed.

Lemma readCookiePart_ok (part : string) (c : http.Cookie) :
  http.readCookiePart part = Some c -> cookie_ok c = true.
Proof.
  unfold http.readCookiePart.
  destruct (String.eqb (textproto.TrimString part) ""); [discriminate |].
  destruct (http.Cut (textproto.TrimString part) "=") as [name val].
  destruct (http.isCookieNameValid (textproto.TrimString name)) eqn:Hname;
    [| discriminate].
  cbn [negb].
  destruct (http.parseCookieValue val) as [v |] eqn:Hval; [| discriminate].
  intros [= <-]. unfold cookie_ok. cbn [http.Name http.Value].
  rewrite Hname, (parseCookieValue_valid val v Hval). reflexivity.
Qed.

Lemma readCookieLine_ok (line : string) :
  Forall (fun c => cookie_ok c = true) (http.readCookieLine line).
Proof.
  unfold http.readCookieLine. apply Forall_forall. intros c Hc.
  apply list_elem_of_omap in Hc as (part & _ & Hpart).
  apply (readCookiePart_ok part c Hpart).
Qed.

Lemma readCookies_ok (h : gmap string (list string)) :
  Forall (fun c => cookie_ok c = true) (http.readCookies h).
Proof.
  unfold http.readCookies. destruct (h !! "Cookie"%string) as [lines |];
    [| constructor].
  induction lines as [| line lines IH]; [constructor |].
  cbn [map concat]. apply Forall_app. split; [apply readCookieLine_ok | exact IH].
Qed.

(** *** The loops of [filterCookies] *)

Lemma censor_if_listed_spec (req : Request) (x : http.Cookie)
    (filter : list string) :
  censor_if_listed req x filter =
    if bool_decide (http.Name x ∈ filter)
    then (AddCookie req {| http.Name := http.Name x; http.Value := "censored" |},
          true)
    else (req, false).
Proof.
  induction filter as [| n filter IH]; cbn [censor_if_listed].
  - rewrite bool_decide_eq_false_2; [reflexivity | apply not_elem_of_nil].
  - destruct (String.eqb_spec (http.Name x) n) as [E | Hne].
    + rewrite bool_decide_eq_true_2; [reflexivity | subst n; apply list_elem_of_here].
    + rewrite IH. destruct (bool_decide (http.Name x ∈ filter)) eqn:Hin.
      * apply bool_decide_eq_true in Hin.
        rewrite bool_decide_eq_true_2; [reflexivity | now apply list_elem_of_further].
      * apply bool_decide_eq_false in Hin.
        rewrite bool_decide_eq_false_2; [reflexivity |].
        intros Hc. apply elem_of_cons in Hc as [Hc | Hc]; auto.
Qed.

Lemma rebuild_cookies_fold (req : Request) (cookies : list http.Cookie)
    (filter : list string) :
  rebuild_cookies req cookies filter =
    fold_left AddCookie (map (censored filter) cookies) req.
Proof.
  revert req. induction cookies as [| x cookies IH]; intros req; [reflexivity |].
  cbn [rebuild_cookies map fold_left]. rewrite censor_if_listed_spec.
  unfold censored at 2.
  destruct (bool_decide (http.Name x ∈ filter)); apply IH.
Qed.

Lemma Get_Set (h : gmap string (list string)) (key value : string) :
  http.Get (http.Set_ h key value) key = value.
Proof. unfold http.Get, http.Set_. rewrite lookup_insert_eq. reflexivity. Qed.

Lemma AddCookie_Header (req : Request) (c : http.Cookie) :
  Header (AddCookie req c) =
    http.Set_ (Header req) "Cookie"
      (append_cookie (http.Get (Header req) "Cookie") (cookie_text c)).
Proof.
  unfold AddCookie, append_cookie, cookie_text. cbn [Header].
  destruct (negb (String.eqb (http.Get (Header req) "Cookie") "")); reflexivity.
Qed.

(** After the header has been emptied, the cookies that are added end up in
    one [Cookie] line; nothing else of the request changes. *)
Lemma fold_AddCookie (cs : list http.Cookie) (req : Request)
    (h : gmap string (list string)) (text : string) :
  Header req = http.Set_ h "Cookie" text ->
  Header (fold_left AddCookie cs req) =
    http.Set_ h "Cookie" (fold_left append_cookie (map cookie_text cs) text)
  /\ RequestURI (fold_left AddCookie cs req) = RequestURI req
  /\ Ctx (fold_left AddCookie cs req) = Ctx req.
Proof.
  revert req text. induction cs as [| c cs IH]; intros req text Hh; [auto |].
  cbn [fold_left map].
  destruct (IH (AddCookie req c) (append_cookie text (cookie_text c)))
    as (H1 & H2 & H3).
  - rewrite AddCookie_Header, Hh, Get_Set. unfold http.Set_.
    apply insert_insert_eq.
  - auto.
Qed.

(** *** Reading the rebuilt line *)

Lemma readCookiePart_after_space (s : string) :
  http.readCookiePart (String " " s) = http.readCookiePart s.
Proof. reflexivity. Qed.

Lemma omap_one {A B : Type} (f : A -> option B) (x : A) :
  omap f [x] = match f x with Some y => [y] | None => [] end.
Proof. reflexivity. Qed.

Lemma readCookieLine_rebuilt (cs done : list http.Cookie) (cur : string) :
  Forall (fun c => cookie_ok c = true) cs ->
  (cur = ""%string /\ done = []
   \/ tight cur /\ omap http.readCookiePart (http.parts cur) = done) ->
  http.readCookieLine (fold_left append_cookie (map cookie_text cs) cur)
  = done ++ cs.
Proof.
  intros Hcs. revert cur done.
  induction Hcs as [| c cs Hc Hcs IH]; intros cur done Hinv.
  - cbn [map fold_left]. rewrite app_nil_r. unfold http.readCookieLine.
    destruct Hinv as [[-> ->] | [Htight Hparts]]; [reflexivity |].
    rewrite (tight_TrimString cur Htight). exact Hparts.
  - cbn [map fold_left].
    destruct (cookie_text_facts c Hc) as (Hsemi & Htight & Hread).
    rewrite (IH _ (done ++ [c])); [now rewrite <- app_assoc |].
    right. unfold append_cookie.
    destruct Hinv as [[-> ->] | [Hcur Hparts]].
    + cbn [String.eqb negb]. split; [exact Htight |].
      rewrite (parts_no_semicolon _ Hsemi), omap_one, Hread.
      reflexivity.
    + destruct (String.eqb_spec cur "") as [E | _];
        [apply tight_nonempty in Hcur; contradiction |].
      cbn [negb]. split; [apply tight_app; assumption |].
      change ("; " +:+ cookie_text c)
        with (String ";" (String " " (cookie_text c))).
      rewrite parts_app_semicolon, omap_app, Hparts. f_equal.
      rewrite parts_no_semicolon.
      * rewrite omap_one, readCookiePart_after_space, Hread. reflexivity.
      * cbn [list_ascii_of_string forallb]. exact Hsemi.
Qed.

Lemma censored_ok (filter : list string) (c : http.Cookie) :
  cookie_ok c = true -> cookie_ok (censored filter c) = true.
Proof.
  intros Hc. unfold censored. destruct (bool_decide (http.Name c ∈ filter));
    [| exact Hc].
  unfold cookie_ok in *. cbn [http.Name http.Value].
  apply andb_true_iff in Hc as [-> _]. reflexivity.
Qed.

(** C7. For every request and every filter, [filterCookies] returns [nil]
    and rewrites the [Cookie] header so that the cookies of the request are
    now the former cookies in their former order, where each cookie whose
    name is in the filter has the value ["censored"] and every other cookie
    has its name and value unchanged; the other headers, the request URI
    and the context are untouched. *)
Theorem filterCookies_censors (req : Request) (filter : list string) :
  snd (filterCookies req filter) = None
  /\ Cookies (fst (filterCookies req filter))
     = map (censored filter) (Cookies req)
  /\ (forall key, key <> "Cookie"%string ->
        Header (fst (filterCookies req filter)) !! key = Header req !! key)
  /\ RequestURI (fst (filterCookies req filter)) = RequestURI req
  /\ Ctx (fst (filterCookies req filter)) = Ctx req.
Proof.
  unfold filterCookies. cbn [fst snd]. rewrite rebuild_cookies_fold.
  set (req0 := {| Header := http.Set_ (Header req) "Cookie" "";
                  RequestURI := RequestURI req; Ctx := Ctx req |}).
  destruct (fold_AddCookie (map (censored filter) (Cookies req)) req0
              (Header req) "" eq_refl) as (Hh & Huri & Hctx).
  split; [reflexivity |]. split; [| split; [| split; assumption]].
  - unfold Cookies at 1. unfold http.readCookies. rewrite Hh.
    unfold http.Set_. rewrite lookup_insert_eq. cbn [map concat].
    rewrite app_nil_r.
    rewrite (readCookieLine_rebuilt _ [] ""); [reflexivity | | left; auto].
    apply Forall_forall. intros c Hc.
    apply list_elem_of_fmap in Hc as (c0 & -> & Hc0).
    apply censored_ok.
    pose proof (readCookies_ok (Header req)) as Hok.
    rewrite Forall_forall in Hok. apply Hok, Hc0.
  - intros key Hkey. rewrite Hh. unfold http.Set_.
    apply lookup_insert_ne. congruence.
Qed.

(* ================================================================== *)
(** * Further properties of the code *)

(** ** The response of a disposition *)

Lemma revokeProxy_twice_trace (r : oauthProxy) (req : Request) (σ : World) :
  trace (world_of ((revokeProxy r req >> revokeProxy r req) σ)) = trace σ.
Proof.
  unfold bind. pose proof (revokeProxy_world r req σ) as [_ H1].
  destruct (revokeProxy r req σ) as [ctx1 σ1 | σ1]; cbn [world_of] in *;
    [| exact H1].
  rewrite <- H1. apply revokeProxy_world.
Qed.

(** Whether it returns or panics, a disposition has recorded its events. *)
Lemma dispose_trace (d : disposition) (r : oauthProxy) (req : Request)
    (σ : World) :
  trace (world_of (dispose d r req σ)) = trace σ ++ dispose_events d r req.
Proof.
  rewrite dispose_revokes.
  destruct d as [| | url |].
  - cbn [dispose_events]. rewrite app_nil_r. apply revokeProxy_world.
  - exact (proj2 (revokeProxy_world r req (record_events σ _))).
  - exact (proj2 (revokeProxy_world r req (record_events σ _))).
  - destruct (NoRedirects (config r) || SkipTokenVerification (config r)).
    + exact (proj2 (revokeProxy_world r req (record_events σ _))).
    + exact (revokeProxy_twice_trace r req (record_events σ _)).
Qed.

Lemma dispose_events_since (d : disposition) (r : oauthProxy) (req : Request)
    (σ : World) :
  events_since σ (world_of (dispose d r req σ)) = dispose_events d r req.
Proof. apply events_since_record, dispose_trace. Qed.

Lemma forbidden_events_status (r : oauthProxy) :
  head (forbidden_events r) = Some (WriteHeader StatusForbidden)
  /\ status_codes (forbidden_events r) = [StatusForbidden]
  /\ locations (forbidden_events r) = [].
Proof.
  unfold forbidden_events.
  destruct (hasCustomForbiddenPage (config r));
    [destruct (Render r _ (Tags (config r))) |]; repeat split.
Qed.

(** X1. Whatever the configuration, the template renderer and the request
    context do (also when the call ends in a panic), [accessForbidden]
    writes the status 403 before anything else, writes no other status and
    makes no redirect; without a custom forbidden page the status is all it
    writes. *)
Theorem accessForbidden_status (r : oauthProxy) (req : Request) (σ : World) :
  let evs := events_since σ (world_of (accessForbidden r req σ)) in
  trace (world_of (accessForbidden r req σ)) = trace σ ++ evs
  /\ head evs = Some (WriteHeader StatusForbidden)
  /\ status_codes evs = [StatusForbidden]
  /\ locations evs = []
  /\ (hasCustomForbiddenPage (config r) = false ->
      evs = [WriteHeader StatusForbidden]).
Proof.
  intros evs. subst evs.
  change (accessForbidden r req σ) with (dispose AccessForbidden r req σ).
  rewrite dispose_events_since, dispose_trace. cbn [dispose_events].
  destruct (forbidden_events_status r) as (Hhd & Hst & Hloc).
  split; [reflexivity |].
  repeat split; try assumption.
  intros Hpage. unfold forbidden_events. rewrite Hpage. reflexivity.
Qed.

(** X2. With a custom forbidden page, [accessForbidden] renders the
    template named by the last element of [ForbiddenPage] with the
    configured tags; when rendering fails, the error is logged with that
    template name and nothing else changes: the status stays 403 and the
    returned context is denied. *)
Theorem accessForbidden_renders (r : oauthProxy) (req : Request) (σ : World) :
  hasCustomForbiddenPage (config r) = true ->
  scope_wellformed σ (Ctx req) = true ->
  let name := path.Base (ForbiddenPage (config r)) in
  exists ctx' σ',
    accessForbidden r req σ = Returns ctx' σ'
    /\ events_since σ σ' =
         WriteHeader StatusForbidden
         :: RenderTemplate name (Tags (config r))
         :: match Render r name (Tags (config r)) with
            | Some err =>
                [LogError "failed to render the template"
                   [("error"%string, err); ("template"%string, name)]]
            | None => []
            end
    /\ status_codes (events_since σ σ') = [StatusForbidden]
    /\ scope_of σ' ctx' = Some {| AccessDenied := true |}.
Proof.
  intros Hpage Hwf name.
  destruct (dispose_wellformed AccessForbidden r req σ Hwf)
    as (ctx' & σ' & Hrun & Htr & _ & Hscope).
  cbn [dispose dispose_events] in Hrun, Htr.
  exists ctx', σ'. rewrite (events_since_record σ σ' _ Htr).
  split; [exact Hrun |]. split; [| split; [| exact Hscope]].
  - unfold forbidden_events. rewrite Hpage. reflexivity.
  - apply forbidden_events_status.
Qed.

Lemma accessForbidden_renders_witness :
  exists ctx' σ',
    accessForbidden sample_forbidden_proxy (sample_request []) (empty_world 0%Z)
    = Returns ctx' σ'
    /\ events_since (empty_world 0%Z) σ' =
         [ WriteHeader StatusForbidden;
           RenderTemplate "forbidden.html.tmpl" ∅;
           LogError "failed to render the template"
             [("error"%string, "no such template"%string);
              ("template"%string, "forbidden.html.tmpl"%string)] ]
    /\ status_codes (events_since (empty_world 0%Z) σ') = [StatusForbidden]
    /\ scope_of σ' ctx' = Some {| AccessDenied := true |}.
Proof.
  apply (accessForbidden_renders sample_forbidden_proxy (sample_request [])
           (empty_world 0%Z)); reflexivity.
Defined.



(** X4. Every disposition other than [revokeProxy] answers exactly once,
    also when the call ends in a panic: it writes one status, which is 401,
    403 or 307, and it names a redirect target exactly when the status is
    307.  [revokeProxy] itself writes nothing. *)
Theorem dispose_status (d : disposition) (r : oauthProxy) (req : Request)
    (σ : World) :
  let evs := events_since σ (world_of (dispose d r req σ)) in
  match d with
  | RevokeProxy => evs = []
  | _ =>
      exists code,
        status_codes evs = [code]
        /\ (code = StatusUnauthorized \/ code = StatusForbidden
            \/ code = StatusTemporaryRedirect)
        /\ (locations evs <> [] <-> code = StatusTemporaryRedirect)
  end.
Proof.
  intros evs. subst evs. rewrite dispose_events_since.
  assert (H403 : forall evs,
             status_codes evs = [StatusForbidden] -> locations evs = [] ->
             exists code,
               status_codes evs = [code]
               /\ (code = StatusUnauthorized \/ code = StatusForbidden
                   \/ code = StatusTemporaryRedirect)
               /\ (locations evs <> [] <-> code = StatusTemporaryRedirect)).
  { intros evs Hst Hloc. exists StatusForbidden. rewrite Hloc.
    split; [exact Hst |]. split; [auto |].
    split; [intros H; now contradict H | discriminate]. }
  destruct d as [| | url |]; cbn [dispose_events].
  - reflexivity.
  - apply H403; apply forbidden_events_status.
  - exists StatusTemporaryRedirect. cbn [status_codes locations].
    split; [reflexivity |]. split; [auto |]. split; [reflexivity | discriminate].
  - destruct (NoRedirects (config r)).
    + exists StatusUnauthorized. cbn [status_codes locations].
      split; [reflexivity |]. split; [auto |].
      split; [intros H; now contradict H | discriminate].
    + destruct (SkipTokenVerification (config r)).
      * apply H403; reflexivity.
      * exists StatusTemporaryRedirect. cbn [status_codes locations].
        split; [reflexivity |]. split; [auto |].
        split; [reflexivity | discriminate].
Qed.

(** ** Scopes and contexts *)


(** X6. When the request context points to an allocated scope,
    [revokeProxy] marks that very scope: the returned context carries the
    same pointer, no scope is allocated, and every context that points to
    the scope (the request's own context included) now reads
    [AccessDenied = true]. *)
Theorem revokeProxy_in_place (r : oauthProxy) (req : Request) (σ : World)
    (l : nat) :
  Value (Ctx req) contextScopeName = scope_ptr (addr l) ->
  (l < length (heap σ))%nat ->
  exists ctx' σ',
    revokeProxy r req σ = Returns ctx' σ'
    /\ Value ctx' contextScopeName = scope_ptr (addr l)
    /\ length (heap σ') = length (heap σ)
    /\ forall ctx,
         Value ctx contextScopeName = scope_ptr (addr l) ->
         scope_of σ' ctx = Some {| AccessDenied := true |}.
Proof.
  intros E Hl. eexists _, _. split; [apply (revokeProxy_addr r req σ l E) |].
  cbn [heap]. split; [reflexivity |]. split; [apply length_insert |].
  intros ctx Hctx. unfold scope_of. rewrite Hctx. cbn [heap].
  apply list_lookup_insert_eq, Hl.
Qed.

Lemma revokeProxy_in_place_witness :
  exists ctx' σ',
    revokeProxy (sample_proxy false false) sample_scoped_request
      (sample_scoped_world false) = Returns ctx' σ'
    /\ Value ctx' contextScopeName = scope_ptr (addr 0)
    /\ length (heap σ') = length (heap (sample_scoped_world false))
    /\ forall ctx,
         Value ctx contextScopeName = scope_ptr (addr 0) ->
         scope_of σ' ctx = Some {| AccessDenied := true |}.
Proof.
  apply (revokeProxy_in_place (sample_proxy false false) sample_scoped_request
           (sample_scoped_world false) 0%nat); [reflexivity | cbn; lia].
Defined.

(** X7. When the request context carries no scope, [revokeProxy] allocates
    exactly one scope, already denied, at the next free address, and the
    returned context points to it; the context of the request itself still
    carries no scope, so the denial can only be read from the returned
    context. *)
Theorem revokeProxy_allocates (r : oauthProxy) (req : Request) (σ : World) :
  Value (Ctx req) contextScopeName = nil_any ->
  exists ctx' σ',
    revokeProxy r req σ = Returns ctx' σ'
    /\ heap σ' = heap σ ++ [{| AccessDenied := true |}]
    /\ Value ctx' contextScopeName = scope_ptr (addr (length (heap σ)))
    /\ scope_of σ' ctx' = Some {| AccessDenied := true |}
    /\ scope_of σ' (Ctx req) = None.
Proof.
  intros E. eexists _, _. split; [apply (revokeProxy_nil r req σ E) |].
  cbn [heap]. split; [reflexivity |]. split; [reflexivity |]. split.
  - unfold scope_of. cbn [WithValue Value ContextKey_eqb heap].
    rewrite lookup_app_r by lia. rewrite Nat.sub_diag. reflexivity.
  - unfold scope_of. rewrite E. reflexivity.
Qed.

Lemma revokeProxy_allocates_witness :
  exists ctx' σ',
    revokeProxy (sample_proxy false false)
      (sample_request [(otherKey "user", foreign "alice")]) (empty_world 0%Z)
    = Returns ctx' σ'
    /\ heap σ' = heap (empty_world 0%Z) ++ [{| AccessDenied := true |}]
    /\ Value ctx' contextScopeName
       = scope_ptr (addr (length (heap (empty_world 0%Z))))
    /\ scope_of σ' ctx' = Some {| AccessDenied := true |}
    /\ scope_of σ' [(otherKey "user", foreign "alice")] = None.
Proof.
  apply (revokeProxy_allocates (sample_proxy false false)
           (sample_request [(otherKey "user", foreign "alice")])
           (empty_world 0%Z)).
  reflexivity.
Defined.

Lemma Value_WithValue_other (ctx : Context) (v : any) (name : string) :
  Value (WithValue ctx contextScopeName v) (otherKey name)
  = Value ctx (otherKey name).
Proof. reflexivity. Qed.

Lemma scope_of_wellformed (σ : World) (ctx : Context) (s : RequestScope) :
  scope_of σ ctx = Some s -> scope_wellformed σ ctx = true.
Proof.
  unfold scope_of, scope_wellformed.
  destruct (Value ctx contextScopeName) as [| [| l] | v]; try discriminate.
  intros H. apply bool_decide_eq_true. eapply lookup_lt_Some, H.
Qed.

(** X8. The context that a disposition returns is the request context with
    one more binding, for the scope key: every value stored under another
    key is still found, and the returned context is again one that the
    dispositions accept (its scope pointer is allocated). *)
Theorem dispose_context (d : disposition) (r : oauthProxy) (req : Request)
    (σ : World) :
  scope_wellformed σ (Ctx req) = true ->
  exists ctx' σ' l,
    dispose d r req σ = Returns ctx' σ'
    /\ ctx' = WithValue (Ctx req) contextScopeName (scope_ptr (addr l))
    /\ (forall name, Value ctx' (otherKey name) = Value (Ctx req) (otherKey name))
    /\ scope_wellformed σ' ctx' = true.
Proof.
  intros Hwf.
  destruct (dispose_usable d r req σ (scope_wellformed_usable _ _ Hwf))
    as (l & σ' & Hrun & _).
  destruct (dispose_wellformed d r req σ Hwf)
    as (ctx2 & σ2 & Hrun2 & _ & _ & Hscope).
  rewrite Hrun in Hrun2. injection Hrun2 as <- <-.
  eexists _, σ', l. split; [exact Hrun |]. split; [reflexivity |].
  split; [intros name; apply Value_WithValue_other |].
  eapply scope_of_wellformed, Hscope.
Qed.

Lemma dispose_context_witness :
  exists ctx' σ' l,
    dispose AccessForbidden (sample_proxy false false) sample_scoped_request
      (sample_scoped_world false) = Returns ctx' σ'
    /\ ctx' = WithValue (Ctx sample_scoped_request) contextScopeName
                (scope_ptr (addr l))
    /\ (forall name,
          Value ctx' (otherKey name)
          = Value (Ctx sample_scoped_request) (otherKey name))
    /\ scope_wellformed σ' ctx' = true.
Proof.
  apply dispose_context. reflexivity.
Defined.

(** Revoking a request whose scope is denied already changes nothing. *)
Lemma revokeProxy_denied (r : oauthProxy) (req : Request) (σ : World) :
  scope_of σ (Ctx req) = Some {| AccessDenied := true |} ->
  revokeProxy r req σ =
    Returns
      (WithValue (Ctx req) contextScopeName (Value (Ctx req) contextScopeName))
      σ.
Proof.
  unfold scope_of.
  destruct (Value (Ctx req) contextScopeName) as [| [| l] | v] eqn:E;
    try discriminate.
  intros Hl. rewrite (revokeProxy_addr r req σ l E). f_equal.
  destruct σ as [h tr clk]. cbn [heap trace clock] in *. f_equal.
  apply list_insert_id, Hl.
Qed.

Lemma dispose_denied (d : disposition) (r : oauthProxy) (req : Request)
    (σ : World) :
  scope_of σ (Ctx req) = Some {| AccessDenied := true |} ->
  dispose d r req σ =
    Returns
      (WithValue (Ctx req) contextScopeName (Value (Ctx req) contextScopeName))
      (record_events σ (dispose_events d r req)).
Proof.
  intros Hden.
  assert (Hrec : forall evs,
             revokeProxy r req (record_events σ evs) =
               Returns
                 (WithValue (Ctx req) contextScopeName
                    (Value (Ctx req) contextScopeName))
                 (record_events σ evs)).
  { intros evs. apply revokeProxy_denied. exact Hden. }
  rewrite dispose_revokes.
  destruct d as [| | url |]; try apply Hrec.
  - cbn [dispose_events]. rewrite (revokeProxy_denied r req σ Hden).
    f_equal. destruct σ as [h tr clk]. unfold record_events.
    cbn [heap trace clock]. rewrite app_nil_r. reflexivity.
  - destruct (NoRedirects (config r) || SkipTokenVerification (config r));
      [apply Hrec |].
    unfold bind. rewrite Hrec. apply Hrec.
Qed.

(** X9. Denying is idempotent: on a request whose scope is denied already,
    every disposition returns, leaves the scopes exactly as they are
    (nothing is allocated, no flag changes) and returns a context that
    carries the same scope pointer; it only adds its reply. *)
Theorem dispose_after_denial (d : disposition) (r : oauthProxy) (req : Request)
    (σ : World) :
  scope_of σ (Ctx req) = Some {| AccessDenied := true |} ->
  exists ctx' σ',
    dispose d r req σ = Returns ctx' σ'
    /\ heap σ' = heap σ
    /\ clock σ' = clock σ
    /\ Value ctx' contextScopeName = Value (Ctx req) contextScopeName
    /\ scope_of σ' ctx' = Some {| AccessDenied := true |}.
Proof.
  intros Hden. eexists _, _. split; [apply (dispose_denied d r req σ Hden) |].
  repeat split. exact Hden.
Qed.

Lemma dispose_after_denial_witness :
  exists ctx' σ',
    dispose RedirectToAuthorization (sample_proxy false false)
      sample_scoped_request (sample_scoped_world true) = Returns ctx' σ'
    /\ heap σ' = heap (sample_scoped_world true)
    /\ clock σ' = clock (sample_scoped_world true)
    /\ Value ctx' contextScopeName
       = Value (Ctx sample_scoped_request) contextScopeName
    /\ scope_of σ' ctx' = Some {| AccessDenied := true |}.
Proof.
  apply dispose_after_denial. reflexivity.
Defined.

(** X10. When redirects are on, token verification is not skipped and the
    request context carries no scope, [redirectToAuthorization] allocates
    two scopes, both denied: the context returned by [redirectToURL] is
    dropped, and the final [revokeProxy] starts again from the request
    context; the returned context points to the second scope. *)
Theorem redirectToAuthorization_allocates_twice (r : oauthProxy)
    (req : Request) (σ : World) :
  NoRedirects (config r) = false ->
  SkipTokenVerification (config r) = false ->
  Value (Ctx req) contextScopeName = nil_any ->
  exists ctx' σ',
    redirectToAuthorization r req σ = Returns ctx' σ'
    /\ heap σ' =
         heap σ ++ [{| AccessDenied := true |}; {| AccessDenied := true |}]
    /\ Value ctx' contextScopeName = scope_ptr (addr (S (length (heap σ)))).
Proof.
  intros Hredir Hskip E.
  rewrite redirectToAuthorization_cases, Hredir, Hskip.
  unfold bind. rewrite redirectToURL_revokes.
  rewrite (revokeProxy_nil r req _ E), (revokeProxy_nil r req _ E).
  cbn [heap trace clock record_events].
  eexists _, _. split; [reflexivity |]. cbn [heap]. split.
  - rewrite <- app_assoc. reflexivity.
  - cbn [WithValue Value ContextKey_eqb]. rewrite length_app. cbn [length].
    do 2 f_equal. lia.
Qed.

Lemma redirectToAuthorization_allocates_twice_witness :
  exists ctx' σ',
    redirectToAuthorization (sample_proxy false false) (sample_request [])
      (empty_world 0%Z) = Returns ctx' σ'
    /\ heap σ' =
         heap (empty_world 0%Z)
         ++ [{| AccessDenied := true |}; {| AccessDenied := true |}]
    /\ Value ctx' contextScopeName
       = scope_ptr (addr (S (length (heap (empty_world 0%Z))))).
Proof.
  apply redirectToAuthorization_allocates_twice; reflexivity.
Defined.

(** X11. The state that [redirectToAuthorization] puts into the redirect
    target leads back to the request: the target is
    [WithOAuthURI (authorizationURL + "?state=" + state)] for a state from
    which [pathFromStateParam] recovers the request URI, without error. *)
Theorem redirectToAuthorization_state_decodes (r : oauthProxy) (req : Request)
    (σ : World) :
  NoRedirects (config r) = false ->
  SkipTokenVerification (config r) = false ->
  scope_wellformed σ (Ctx req) = true ->
  exists ctx' σ' state,
    redirectToAuthorization r req σ = Returns ctx' σ'
    /\ locations (events_since σ σ') =
         [WithOAuthURI (config r) (authorizationURL +:+ ("?state=" +:+ state))]
    /\ pathFromStateParam state = (RequestURI req, None).
Proof.
  intros Hredir Hskip Hwf.
  destruct (dispose_wellformed RedirectToAuthorization r req σ Hwf)
    as (ctx' & σ' & Hrun & Htr & _ & _).
  cbn [dispose dispose_events] in Hrun, Htr. rewrite Hredir, Hskip in Htr.
  exists ctx', σ', (generateStateParam (RequestURI req)).
  rewrite (events_since_record σ σ' _ Htr).
  split; [exact Hrun |]. split; [reflexivity |].
  unfold pathFromStateParam, generateStateParam.
  rewrite DecodeString_EncodeToString, string_of_list_ascii_of_string.
  rewrite TrimPrefix_app. reflexivity.
Qed.

Lemma redirectToAuthorization_state_decodes_witness :
  exists ctx' σ' state,
    redirectToAuthorization (sample_proxy false false) (sample_request [])
      (empty_world 0%Z) = Returns ctx' σ'
    /\ locations (events_since (empty_world 0%Z) σ') =
         [WithOAuthURI (config (sample_proxy false false))
            (authorizationURL +:+ ("?state=" +:+ state))]
    /\ pathFromStateParam state
       = (RequestURI (sample_request []), None).
Proof.
  apply redirectToAuthorization_state_decodes; reflexivity.
Defined.

(** ** The name of the forbidden page template *)

Lemma until_slash_no_slash (l : list ascii) :
  forallb (fun c => negb (Ascii.eqb c "/")) (path.until_slash l) = true.
Proof.
  induction l as [| c l IH]; [reflexivity |]. cbn [path.until_slash].
  destruct (Ascii.eqb c "/") eqn:E; [reflexivity |].
  cbn [forallb]. rewrite E, IH. reflexivity.
Qed.

Lemma until_slash_id (l : list ascii) :
  forallb (fun c => negb (Ascii.eqb c "/")) l = true -> path.until_slash l = l.
Proof.
  induction l as [| c l IH]; [reflexivity |]. cbn [forallb path.until_slash].
  intros H. apply andb_true_iff in H as [Hc Hl]. apply negb_true_iff in Hc.
  rewrite Hc, (IH Hl). reflexivity.
Qed.

Lemma forallb_rev {A : Type} (P : A -> bool) (l : list A) :
  forallb P (rev l) = forallb P l.
Proof.
  induction l as [| x l IH]; [reflexivity |]. cbn [rev forallb].
  rewrite forallb_app, IH. cbn [forallb]. rewrite andb_true_r. apply andb_comm.
Qed.

(** The three shapes of a base name. *)
Lemma Base_cases (p : string) :
  path.Base p = "."%string \/ path.Base p = "/"%string
  \/ exists c last,
       path.Base p = string_of_list_ascii (rev (c :: last))
       /\ forallb (fun c => negb (Ascii.eqb c "/")) (c :: last) = true.
Proof.
  unfold path.Base. destruct p as [| x p]; [left; reflexivity |].
  pose proof (until_slash_no_slash
                (path.drop_slashes (rev (list_ascii_of_string (String x p)))))
    as Hno.
  destruct (path.until_slash _) as [| c last];
    [right; left; reflexivity |].
  right. right. exists c, last. split; [reflexivity | exact Hno].
Qed.

Lemma Base_plain (p : string) :
  path.Base p <> ""%string
  /\ (path.Base p = "/"%string \/ no_slash (path.Base p) = true)
  /\ path.Base (path.Base p) = path.Base p.
Proof.
  destruct (Base_cases p) as [-> | [-> | (c & last & -> & Hno)]].
  - split; [discriminate |]. split; [right |]; reflexivity.
  - split; [discriminate |]. split; [left |]; reflexivity.
  - assert (Hne : string_of_list_ascii (rev (c :: last)) <> ""%string).
    { intros E. apply (f_equal list_ascii_of_string) in E.
      rewrite list_ascii_of_string_of_list_ascii in E. cbn [rev] in E.
      destruct (rev last); discriminate E. }
    split; [exact Hne |]. split.
    + right. unfold no_slash.
      rewrite list_ascii_of_string_of_list_ascii, forallb_rev. exact Hno.
    + unfold path.Base at 1.
      destruct (string_of_list_ascii (rev (c :: last))) as [| y s] eqn:E;
        [contradiction |].
      rewrite <- E, list_ascii_of_string_of_list_ascii, rev_involutive.
      cbn [forallb] in Hno. apply andb_true_iff in Hno as [Hc Hlast].
      apply negb_true_iff in Hc.
      cbn [path.drop_slashes]. rewrite Hc.
      cbn [path.until_slash]. rewrite Hc, (until_slash_id last Hlast).
      reflexivity.
Qed.

(** X12. Whenever [accessForbidden] renders a template, its name is the
    last element of the configured [ForbiddenPage] and the variables are the
    configured tags; that name is never empty, contains no slash unless it
    is the single slash (a page made of slashes only), and is its own base
    name. *)
Theorem accessForbidden_template_name (r : oauthProxy) (req : Request)
    (σ : World) (name : string) (tags : gmap string string) :
  In (RenderTemplate name tags)
     (events_since σ (world_of (accessForbidden r req σ))) ->
  name = path.Base (ForbiddenPage (config r))
  /\ tags = Tags (config r)
  /\ name <> ""%string
  /\ (name = "/"%string \/ no_slash name = true)
  /\ path.Base name = name.
Proof.
  change (accessForbidden r req σ) with (dispose AccessForbidden r req σ).
  rewrite dispose_events_since. cbn [dispose_events]. unfold forbidden_events.
  intros Hin.
  assert (E : name = path.Base (ForbiddenPage (config r))
              /\ tags = Tags (config r)).
  { destruct Hin as [Hin | Hin]; [discriminate Hin |].
    destruct (hasCustomForbiddenPage (config r)); [| contradiction].
    destruct Hin as [Hin | Hin]; [injection Hin as <- <-; auto |].
    destruct (Render r _ (Tags (config r))); [| contradiction].
    destruct Hin as [Hin | Hin]; [discriminate Hin | contradiction]. }
  destruct E as [-> ->]. split; [reflexivity |]. split; [reflexivity |].
  apply Base_plain.
Qed.

Lemma accessForbidden_template_name_witness :
  "forbidden.html.tmpl"%string
  = path.Base (ForbiddenPage (config sample_forbidden_proxy))
  /\ (∅ : gmap string string) = Tags (config sample_forbidden_proxy)
  /\ "forbidden.html.tmpl"%string <> ""%string
  /\ ("forbidden.html.tmpl"%string = "/"%string
      \/ no_slash "forbidden.html.tmpl" = true)
  /\ path.Base "forbidden.html.tmpl" = "forbidden.html.tmpl"%string.
Proof.
  apply (accessForbidden_template_name sample_forbidden_proxy
           (sample_request []) (empty_world 0%Z)).
  right. left. reflexivity.
Defined.

(** ** The text of a state *)

Lemma in_alphabet_encode (i : N) :
  (i < 64)%N -> in_alphabet (base64.encode i) = true.
Proof.
  intros Hi. rewrite <- (N2Nat.id i).
  assert (Hn : (N.to_nat i < 64)%nat) by lia.
  revert Hn. generalize (N.to_nat i). clear. intros n Hn.
  do 64 (destruct n as [| n]; [vm_compute; reflexivity |]). lia.
Qed.

Lemma Encode_alphabet (src : list ascii) :
  forallb in_alphabet (base64.Encode src) = true.
Proof.
  induction src as [| s0 | s0 s1 | s0 s1 s2 rest IH] using list_ind3;
    cbn [base64.Encode forallb];
    rewrite ?in_alphabet_encode by apply sextet_bound; auto.
Qed.

Lemma Encode_length (src : list ascii) :
  length (base64.Encode src) = ((4 * length src + 2) / 3)%nat.
Proof.
  induction src as [| s0 | s0 s1 | s0 s1 s2 rest IH] using list_ind3;
    cbn [base64.Encode length]; try reflexivity.
  rewrite IH.
  replace (4 * S (S (S (length rest))) + 2)%nat
    with ((4 * length rest + 2) + 4 * 3)%nat by lia.
  rewrite Nat.div_add by lia. lia.
Qed.

Lemma length_list_ascii_of_string (s : string) :
  length (list_ascii_of_string s) = String.length s.
Proof. induction s as [| c s IH]; [reflexivity | cbn; now rewrite IH]. Qed.

Lemma length_append (a b : string) :
  String.length (a +:+ b) = (String.length a + String.length b)%nat.
Proof.
  induction a as [| c a IH]; [reflexivity |].
  rewrite append_cons. cbn [String.length]. now rewrite IH.
Qed.

(** X13. A generated state is made of the URL-safe characters
    [A-Z a-z 0-9 - _] only: it has no padding sign, no [+], no [/] and no
    line break, so it can be put into a query string as it is. *)
Theorem generateStateParam_alphabet (uri : string) :
  forallb in_alphabet (list_ascii_of_string (generateStateParam uri)) = true.
Proof.
  unfold generateStateParam, base64.EncodeToString.
  rewrite list_ascii_of_string_of_list_ascii. apply Encode_alphabet.
Qed.

(** X14. The state for a URI of [n] bytes has [(4 (n + 6) + 2) / 3]
    characters (integer division): four characters for every three bytes of
    the prefixed URI, rounded up, without padding.  In particular it is
    never empty. *)
Theorem generateStateParam_length (uri : string) :
  String.length (generateStateParam uri)
  = ((4 * (String.length uri + 6) + 2) / 3)%nat
  /\ (8 <= String.length (generateStateParam uri))%nat.
Proof.
  assert (E : String.length (generateStateParam uri)
              = ((4 * (String.length uri + 6) + 2) / 3)%nat).
  { unfold generateStateParam, base64.EncodeToString.
    rewrite length_string_of_list_ascii, Encode_length.
    rewrite length_list_ascii_of_string, length_append.
    cbn [PathParamPrefix String.length]. f_equal. lia. }
  split; [exact E |]. rewrite E.
  replace (4 * (String.length uri + 6) + 2)%nat
    with ((4 * String.length uri + 2) + 8 * 3)%nat by lia.
  rewrite Nat.div_add by lia. lia.
Qed.

(** X15. Two URIs have the same state only when they are the same URI. *)
Theorem generateStateParam_injective (a b : string) :
  generateStateParam a = generateStateParam b <-> a = b.
Proof.
  split; [| intros ->; reflexivity].
  unfold generateStateParam. intros H.
  apply (f_equal base64.DecodeString) in H.
  rewrite !DecodeString_EncodeToString in H.
  assert (H' : list_ascii_of_string (PathParamPrefix +:+ a)
               = list_ascii_of_string (PathParamPrefix +:+ b))
    by congruence.
  apply (f_equal string_of_list_ascii) in H'.
  rewrite !string_of_list_ascii_of_string in H'.
  rewrite <- (TrimPrefix_app PathParamPrefix a), H'. apply TrimPrefix_app.
Qed.

(** ** Line breaks and corrupt bytes in a state *)

Lemma Decode_kept (src : list ascii) :
  forall (si si' : Z) (dbuf : list N),
    same_decoding (base64.Decode src si dbuf) (base64.Decode (kept src) si' dbuf).
Proof.
  induction src as [| c src IH]; intros si si' dbuf.
  - cbn [kept List.filter base64.Decode].
    destruct (length dbuf) as [| [| n]]; cbn; auto.
  - cbn [base64.Decode]. pose proof (decodeMap_alphabet c) as Hc.
    unfold kept. cbn [List.filter]. fold (kept src).
    destruct (in_alphabet c) eqn:Ealpha.
    + assert (Hnl : base64.is_newline c = false).
      { destruct (base64.is_newline c) eqn:E; [| reflexivity].
        apply newline_not_in_alphabet in E. congruence. }
      rewrite Hnl. cbn [negb base64.Decode].
      destruct (N.eqb_spec (base64.decodeMap c) 255) as [E | _]; [lia |].
      destruct (Nat.eqb (length (dbuf ++ [base64.decodeMap c])) 4).
      * specialize (IH (si + 1)%Z (si' + 1)%Z []).
        destruct (base64.Decode src (si + 1) []),
                 (base64.Decode (kept src) (si' + 1) []);
          cbn in *; try contradiction; congruence.
      * apply IH.
    + rewrite Hc. cbn [N.eqb Pos.eqb].
      destruct (base64.is_newline c) eqn:Enl; cbn [negb].
      * apply IH.
      * cbn [base64.Decode]. rewrite Hc, Enl. cbn. exact I.
Qed.

(** X16. Line feeds and carriage returns in a state do not count:
    [pathFromStateParam] returns the same path for a state and for that
    state without its line breaks, and it fails on the one exactly when it
    fails on the other. *)
Theorem pathFromStateParam_ignores_newlines (state : string) :
  fst (pathFromStateParam state)
  = fst (pathFromStateParam (strip_newlines state))
  /\ (snd (pathFromStateParam state) = None
      <-> snd (pathFromStateParam (strip_newlines state)) = None).
Proof.
  unfold pathFromStateParam, base64.DecodeString, strip_newlines.
  rewrite list_ascii_of_string_of_list_ascii.
  pose proof (Decode_kept (list_ascii_of_string state) 0 0 []) as H.
  destruct (base64.Decode (list_ascii_of_string state) 0 []),
           (base64.Decode (kept (list_ascii_of_string state)) 0 []);
    cbn in *; try contradiction.
  - subst. split; [reflexivity | tauto].
  - split; [reflexivity |]. split; discriminate.
Qed.

Lemma first_corrupt_bound (src : list ascii) (i : nat) :
  first_corrupt src = Some i -> (i < length src)%nat.
Proof.
  revert i. induction src as [| c src IH]; intros i; [discriminate |].
  cbn [first_corrupt length].
  destruct (in_alphabet c || base64.is_newline c).
  - destruct (first_corrupt src) as [j |]; [| discriminate].
    intros [= <-]. specialize (IH j eq_refl). lia.
  - intros [= <-]. lia.
Qed.

Lemma Decode_error_offset (src : list ascii) :
  forall (si : Z) (dbuf : list N) (k : Z),
    base64.Decode src si dbuf = inr (base64.CorruptInputError k) ->
    match first_corrupt src with
    | Some i => k = (si + Z.of_nat i)%Z
    | None => k = (si + Z.of_nat (length src) - 1)%Z
    end.
Proof.
  induction src as [| c src IH]; intros si dbuf k.
  - cbn [base64.Decode first_corrupt length].
    destruct (length dbuf) as [| [| n]]; try discriminate.
    intros [= <-]. lia.
  - cbn [base64.Decode first_corrupt length].
    pose proof (decodeMap_alphabet c) as Hc.
    assert (Hstep : forall dbuf',
               base64.Decode src (si + 1) dbuf'
               = inr (base64.CorruptInputError k) ->
               match option_map S (first_corrupt src) with
               | Some i => k = (si + Z.of_nat i)%Z
               | None => k = (si + Z.of_nat (S (length src)) - 1)%Z
               end).
    { intros dbuf' H. specialize (IH _ _ _ H).
      destruct (first_corrupt src) as [i |]; cbn [option_map]; lia. }
    destruct (in_alphabet c) eqn:Ealpha; cbn [orb].
    + destruct (N.eqb_spec (base64.decodeMap c) 255) as [E | _]; [lia |].
      destruct (Nat.eqb (length (dbuf ++ [base64.decodeMap c])) 4);
        [| apply Hstep].
      destruct (base64.Decode src (si + 1) []) as [dst | e] eqn:Hrec;
        [discriminate |].
      intros [= ->]. apply (Hstep [] Hrec).
    + rewrite Hc. cbn [N.eqb Pos.eqb].
      destruct (base64.is_newline c); [apply Hstep |].
      intros [= <-]. lia.
Qed.

(** X17. The offset of a decoding error lies within the state and tells
    where the state is corrupt: it is the index of the first byte that is
    neither of the alphabet nor a line break, and when there is no such
    byte (the state then ends in the middle of a group) it is the index of
    the last byte. *)
Theorem pathFromStateParam_error_offset (state : string) (k : Z) :
  snd (pathFromStateParam state) = Some (base64.CorruptInputError k) ->
  (0 <= k < Z.of_nat (String.length state))%Z
  /\ match first_corrupt (list_ascii_of_string state) with
     | Some i => k = Z.of_nat i
     | None => k = (Z.of_nat (String.length state) - 1)%Z
     end.
Proof.
  unfold pathFromStateParam, base64.DecodeString.
  destruct (base64.Decode (list_ascii_of_string state) 0 []) as [dst | e] eqn:H;
    [discriminate |].
  cbn [snd]. intros [= ->].
  pose proof (Decode_error_offset _ _ _ _ H) as Hk.
  rewrite <- (length_list_ascii_of_string state).
  destruct (first_corrupt (list_ascii_of_string state)) as [i |] eqn:Hfc.
  - apply first_corrupt_bound in Hfc. split; lia.
  - split; [| lia].
    destruct (list_ascii_of_string state) as [| c src]; [discriminate H |].
    cbn [length] in *. lia.
Qed.

Lemma pathFromStateParam_error_offset_witness :
  (0 <= 16 < Z.of_nat (String.length "not-valid-base64!!"))%Z
  /\ match first_corrupt (list_ascii_of_string "not-valid-base64!!") with
     | Some i => 16%Z = Z.of_nat i
     | None => 16%Z = (Z.of_nat (String.length "not-valid-base64!!") - 1)%Z
     end.
Proof.
  apply (pathFromStateParam_error_offset "not-valid-base64!!" 16).
  reflexivity.
Defined.

(** ** More on the cookie censor *)

Lemma Request_eq (a b : Request) :
  Header a = Header b -> RequestURI a = RequestURI b -> Ctx a = Ctx b -> a = b.
Proof. destruct a, b. cbn. intros -> -> ->. reflexivity. Qed.

(** The request that [filterCookies] returns. *)
Lemma filterCookies_rebuilt (req : Request) (filter : list string) :
  Header (fst (filterCookies req filter)) =
    http.Set_ (Header req) "Cookie"
      (fold_left append_cookie
         (map cookie_text (map (censored filter) (Cookies req))) "")
  /\ RequestURI (fst (filterCookies req filter)) = RequestURI req
  /\ Ctx (fst (filterCookies req filter)) = Ctx req.
Proof.
  unfold filterCookies. cbn [fst]. rewrite rebuild_cookies_fold.
  apply (fold_AddCookie _
           {| Header := http.Set_ (Header req) "Cookie" "";
              RequestURI := RequestURI req; Ctx := Ctx req |}
           (Header req) "" eq_refl).
Qed.

Lemma filterCookies_pair (req : Request) (filter : list string) :
  filterCookies req filter = (fst (filterCookies req filter), None).
Proof. reflexivity. Qed.

Lemma censored_cookies_ok (req : Request) (filter : list string) :
  Forall (fun c => cookie_ok c = true) (map (censored filter) (Cookies req)).
Proof.
  apply Forall_forall. intros c Hc.
  apply list_elem_of_fmap in Hc as (c0 & -> & Hc0).
  apply censored_ok.
  pose proof (readCookies_ok (Header req)) as Hok.
  rewrite Forall_forall in Hok. apply Hok, Hc0.
Qed.

Lemma readCookies_rebuilt (h : gmap string (list string))
    (cs : list http.Cookie) :
  Forall (fun c => cookie_ok c = true) cs ->
  http.readCookies
    (http.Set_ h "Cookie" (fold_left append_cookie (map cookie_text cs) ""))
  = cs.
Proof.
  intros Hcs. unfold http.readCookies, http.Set_. rewrite lookup_insert_eq.
  cbn [map concat]. rewrite app_nil_r.
  apply (readCookieLine_rebuilt cs [] ""); [exact Hcs | left; auto].
Qed.

Lemma filterCookies_Cookies (req : Request) (filter : list string) :
  Cookies (fst (filterCookies req filter)) = map (censored filter) (Cookies req).
Proof.
  unfold Cookies at 1.
  destruct (filterCookies_rebuilt req filter) as (-> & _ & _).
  apply readCookies_rebuilt, censored_cookies_ok.
Qed.

(** Censoring in two passes. *)
Lemma filterCookies_twice (req : Request) (f1 f2 f3 : list string) :
  (forall c, censored f2 (censored f1 c) = censored f3 c) ->
  fst (filterCookies (fst (filterCookies req f1)) f2)
  = fst (filterCookies req f3).
Proof.
  intros Hc.
  destruct (filterCookies_rebuilt (fst (filterCookies req f1)) f2)
    as (Hh2 & Hu2 & Hc2).
  destruct (filterCookies_rebuilt req f1) as (Hh1 & Hu1 & Hc1).
  destruct (filterCookies_rebuilt req f3) as (Hh3 & Hu3 & Hc3).
  apply Request_eq; [| congruence | congruence].
  rewrite Hh2, Hh3, filterCookies_Cookies, Hh1. unfold http.Set_.
  rewrite insert_insert_eq.
  rewrite (map_map (censored f1) (censored f2) (Cookies req)).
  rewrite (map_ext _ _ Hc (Cookies req)). reflexivity.
Qed.

Lemma censored_app (f1 f2 : list string) (c : http.Cookie) :
  censored f2 (censored f1 c) = censored (f1 ++ f2) c.
Proof.
  unfold censored.
  destruct (decide (http.Name c ∈ f1)) as [H1 | H1].
  - rewrite (bool_decide_eq_true_2 _ H1). cbn [http.Name].
    rewrite (bool_decide_eq_true_2 (http.Name c ∈ f1 ++ f2))
      by (apply elem_of_app; auto).
    destruct (bool_decide (http.Name c ∈ f2)); reflexivity.
  - rewrite (bool_decide_eq_false_2 _ H1).
    destruct (decide (http.Name c ∈ f2)) as [H2 | H2].
    + rewrite (bool_decide_eq_true_2 _ H2).
      rewrite (bool_decide_eq_true_2 (http.Name c ∈ f1 ++ f2))
        by (apply elem_of_app; auto).
      reflexivity.
    + rewrite (bool_decide_eq_false_2 _ H2).
      rewrite (bool_decide_eq_false_2 (http.Name c ∈ f1 ++ f2));
        [reflexivity |].
      intros H. apply elem_of_app in H as [H | H]; contradiction.
Qed.

Lemma censored_idem (f : list string) (c : http.Cookie) :
  censored f (censored f c) = censored f c.
Proof.
  unfold censored. destruct (bool_decide (http.Name c ∈ f)) eqn:E.
  - cbn [http.Name]. rewrite E. reflexivity.
  - rewrite E. reflexivity.
Qed.

(** X18. Only the set of names in the filter matters to [filterCookies]:
    two filters with the same names, in whatever order and with whatever
    repetitions, give the same request. *)
Theorem filterCookies_filter_as_set (req : Request) (f1 f2 : list string) :
  (forall n, n ∈ f1 <-> n ∈ f2) ->
  filterCookies req f1 = filterCookies req f2.
Proof.
  intros H. unfold filterCookies. f_equal. rewrite !rebuild_cookies_fold.
  f_equal. apply map_ext. intros c. unfold censored.
  rewrite (bool_decide_ext _ _ (H (http.Name c))). reflexivity.
Qed.

Lemma filterCookies_filter_as_set_witness :
  filterCookies sample_cookie_request ["b"; "a"; "b"]%string
  = filterCookies sample_cookie_request ["a"; "b"]%string.
Proof.
  apply filterCookies_filter_as_set. intros n.
  rewrite !elem_of_cons, !elem_of_nil. tauto.
Defined.

(** X19. Censoring with one filter and then with another gives the same
    request as censoring once with both filters together. *)
Theorem filterCookies_compose (req : Request) (f1 f2 : list string) :
  fst (filterCookies (fst (filterCookies req f1)) f2)
  = fst (filterCookies req (f1 ++ f2)).
Proof. apply filterCookies_twice, censored_app. Qed.

(** X20. [filterCookies] is idempotent: censoring a censored request again
    with the same filter changes nothing. *)
Theorem filterCookies_idempotent (req : Request) (filter : list string) :
  filterCookies (fst (filterCookies req filter)) filter
  = filterCookies req filter.
Proof.
  rewrite (filterCookies_pair (fst (filterCookies req filter))).
  rewrite (filterCookies_pair req). f_equal.
  apply filterCookies_twice, censored_idem.
Qed.

(** X21. When no cookie of the request has its name in the filter (for the
    empty filter, say), the request has the same cookies after
    [filterCookies] as before. *)
Theorem filterCookies_no_match (req : Request) (filter : list string) :
  Forall (fun c => http.Name c ∉ filter) (Cookies req) ->
  Cookies (fst (filterCookies req filter)) = Cookies req.
Proof.
  intros H. rewrite filterCookies_Cookies.
  induction H as [| c cs Hc _ IH]; [reflexivity |].
  cbn [map]. rewrite IH. f_equal. unfold censored.
  rewrite (bool_decide_eq_false_2 _ Hc). reflexivity.
Qed.

Lemma filterCookies_no_match_witness :
  Cookies (fst (filterCookies sample_cookie_request ["session"%string]))
  = Cookies sample_cookie_request.
Proof.
  apply filterCookies_no_match.
  apply (bool_decide_unpack _). vm_compute. exact I.
Defined.

Lemma cookie_text_nonempty (c : http.Cookie) : cookie_text c <> ""%string.
Proof.
  unfold cookie_text. intros E. apply append_eq_empty in E as [_ E].
  discriminate E.
Qed.

Lemma append_cookie_nonempty (cur s : string) :
  s <> ""%string -> append_cookie cur s <> ""%string.
Proof.
  intros Hs. unfold append_cookie.
  destruct (String.eqb_spec cur "") as [-> | Hcur]; cbn [negb]; [exact Hs |].
  intros E. apply append_eq_empty in E as [E _]. contradiction.
Qed.

Lemma fold_append_cookie_nonempty (texts : list string) (cur : string) :
  cur <> ""%string -> Forall (fun s => s <> ""%string) texts ->
  fold_left append_cookie texts cur <> ""%string.
Proof.
  intros Hcur Htexts. revert cur Hcur.
  induction Htexts as [| s texts Hs _ IH]; intros cur Hcur; [exact Hcur |].
  cbn [fold_left]. apply IH, append_cookie_nonempty, Hs.
Qed.

(** X22. After [filterCookies] the header has exactly one [Cookie] line,
    also when the request came with none or with several; that line is
    empty exactly when the request had no cookie. *)
Theorem filterCookies_single_line (req : Request) (filter : list string) :
  exists text,
    Header (fst (filterCookies req filter)) !! "Cookie"%string = Some [text]
    /\ (text = ""%string <-> Cookies req = []).
Proof.
  destruct (filterCookies_rebuilt req filter) as (-> & _ & _).
  eexists. split; [apply lookup_insert_eq |].
  destruct (Cookies req) as [| c cs]; [split; reflexivity |].
  split; [| discriminate]. cbn [map fold_left]. intros E. exfalso.
  revert E. apply fold_append_cookie_nonempty.
  - apply append_cookie_nonempty, cookie_text_nonempty.
  - apply Forall_forall. intros s Hs.
    apply list_elem_of_fmap in Hs as (c0 & -> & _). apply cookie_text_nonempty.
Qed.

(** ** More on the cookie lifetime *)

(** X23. When the refresh token can be parsed, the lifetime returned by
    [getAccessCookieExpiration] is a [Duration] (it lies between the
    minimum and the maximum duration) whose sign tells whether the token
    has expired: negative when [ExpiresAt] is before the clock reading, zero
    when they are equal, positive when it is after. *)
Theorem getAccessCookieExpiration_sign
    (JWT : Type) (parseToken : string -> JWT * Identity + string)
    (r : oauthProxy) (token : JWT) (refresh : string) (σ : World)
    (tk : JWT) (ident : Identity) :
  parseToken refresh = inl (tk, ident) ->
  exists d,
    getAccessCookieExpiration JWT parseToken r token refresh σ = Returns d σ
    /\ (time.minDuration <= d <= time.maxDuration)%Z
    /\ ((d < 0)%Z <-> (ExpiresAt ident < clock σ)%Z)
    /\ (d = 0%Z <-> ExpiresAt ident = clock σ)
    /\ ((0 < d)%Z <-> (clock σ < ExpiresAt ident)%Z).
Proof.
  intros Hparse. unfold getAccessCookieExpiration. rewrite Hparse.
  unfold bind, now, ret, time.Until, time.Sub.
  eexists. split; [reflexivity |].
  assert (Hmin : (time.minDuration < 0)%Z) by reflexivity.
  assert (Hmax : (0 < time.maxDuration)%Z) by reflexivity.
  destruct (Z.ltb_spec (ExpiresAt ident - clock σ) time.minDuration);
    [lia |].
  destruct (Z.ltb_spec time.maxDuration (ExpiresAt ident - clock σ)); lia.
Qed.

Lemma getAccessCookieExpiration_sign_witness :
  exists d,
    getAccessCookieExpiration unit
      (fun _ => inl (tt, {| ExpiresAt := (sample_now - 1)%Z |}))
      (sample_proxy false false) tt "refresh" (empty_world sample_now)
    = Returns d (empty_world sample_now)
    /\ (time.minDuration <= d <= time.maxDuration)%Z
    /\ ((d < 0)%Z
        <-> (ExpiresAt {| ExpiresAt := (sample_now - 1)%Z |}
             < clock (empty_world sample_now))%Z)
    /\ (d = 0%Z
        <-> ExpiresAt {| ExpiresAt := (sample_now - 1)%Z |}
            = clock (empty_world sample_now))
    /\ ((0 < d)%Z
        <-> (clock (empty_world sample_now)
             < ExpiresAt {| ExpiresAt := (sample_now - 1)%Z |})%Z).
Proof.
  apply (getAccessCookieExpiration_sign unit
           (fun _ => inl (tt, {| ExpiresAt := (sample_now - 1)%Z |}))
           (sample_proxy false false) tt "refresh" (empty_world sample_now)
           tt {| ExpiresAt := (sample_now - 1)%Z |}).
  reflexivity.
Defined.

(** ** States without the prefix, panics, and censored requests *)

(** X24. The prefix is not required of a state: for a path that does not
    itself start with [":path:"], the plain encoding of the path (without
    the prefix) decodes to that path as well, so a path has more than one
    state. *)
Theorem pathFromStateParam_bare_path (p : string) :
  strings.HasPrefix p PathParamPrefix = false ->
  pathFromStateParam (base64.EncodeToString (list_ascii_of_string p))
  = (p, None)
  /\ base64.EncodeToString (list_ascii_of_string p) <> generateStateParam p.
Proof.
  intros Hp. split.
  - unfold pathFromStateParam.
    rewrite DecodeString_EncodeToString, string_of_list_ascii_of_string.
    rewrite (TrimPrefix_absent _ _ Hp). reflexivity.
  - unfold generateStateParam. intros E.
    apply (f_equal base64.DecodeString) in E.
    rewrite !DecodeString_EncodeToString in E.
    assert (E' : list_ascii_of_string p
                 = list_ascii_of_string (PathParamPrefix +:+ p))
      by congruence.
    apply (f_equal string_of_list_ascii) in E'.
    rewrite !string_of_list_ascii_of_string in E'.
    rewrite E', HasPrefix_app in Hp. discriminate Hp.
Qed.

Lemma pathFromStateParam_bare_path_witness :
  pathFromStateParam (base64.EncodeToString (list_ascii_of_string "/admin"))
  = ("/admin"%string, None)
  /\ base64.EncodeToString (list_ascii_of_string "/admin")
     <> generateStateParam "/admin".
Proof.
  apply pathFromStateParam_bare_path. reflexivity.
Defined.

Lemma dispose_unusable (d : disposition) (r : oauthProxy) (req : Request)
    (σ : World) :
  scope_usable (Ctx req) = false ->
  dispose d r req σ = Panics (record_events σ (dispose_events d r req)).
Proof.
  intros Hu. rewrite dispose_revokes.
  destruct d as [| | url |]; try apply (revokeProxy_panics r req _ Hu).
  - cbn [dispose_events]. rewrite (revokeProxy_panics r req σ Hu). f_equal.
    destruct σ as [h tr clk]. unfold record_events. cbn [heap trace clock].
    rewrite app_nil_r. reflexivity.
  - destruct (NoRedirects (config r) || SkipTokenVerification (config r));
      [apply (revokeProxy_panics r req _ Hu)
      | apply (revokeProxy_twice_panics r req _ Hu)].
Qed.

(** X25. When the value under the scope key is not usable (a nil pointer,
    or a value of another type), a disposition panics only after it has
    written its reply, and it leaves every scope and the clock as they
    were; [revokeProxy] itself panics at once, with the world unchanged. *)
Theorem dispose_panics_after_reply (d : disposition) (r : oauthProxy)
    (req : Request) (σ : World) :
  scope_usable (Ctx req) = false ->
  exists σ',
    dispose d r req σ = Panics σ'
    /\ heap σ' = heap σ
    /\ clock σ' = clock σ
    /\ trace σ' = trace σ ++ events_since σ σ'
    /\ match d with
       | RevokeProxy => σ' = σ
       | _ => length (status_codes (events_since σ σ')) = 1%nat
       end.
Proof.
  intros Hu. eexists. split; [apply (dispose_unusable d r req σ Hu) |].
  rewrite (events_since_record σ _ (dispose_events d r req) eq_refl).
  split; [reflexivity |]. split; [reflexivity |]. split; [reflexivity |].
  destruct d as [| | url |]; cbn [dispose_events].
  - destruct σ as [h tr clk]. unfold record_events. cbn [heap trace clock].
    rewrite app_nil_r. reflexivity.
  - destruct (forbidden_events_status r) as (_ & -> & _). reflexivity.
  - reflexivity.
  - destruct (NoRedirects (config r));
      [| destruct (SkipTokenVerification (config r))]; reflexivity.
Qed.

Lemma dispose_panics_after_reply_witness :
  exists σ',
    dispose AccessForbidden (sample_proxy false false)
      (sample_request [(contextScopeName, foreign "scope")])
      (sample_scoped_world false) = Panics σ'
    /\ heap σ' = heap (sample_scoped_world false)
    /\ clock σ' = clock (sample_scoped_world false)
    /\ trace σ' = trace (sample_scoped_world false)
                  ++ events_since (sample_scoped_world false) σ'
    /\ length (status_codes (events_since (sample_scoped_world false) σ'))
       = 1%nat.
Proof.
  apply (dispose_panics_after_reply AccessForbidden (sample_proxy false false)
           (sample_request [(contextScopeName, foreign "scope")])
           (sample_scoped_world false)).
  reflexivity.
Defined.

Lemma revokeProxy_reads (r : oauthProxy) (a b : Request) (σ : World) :
  Ctx a = Ctx b -> revokeProxy r a σ = revokeProxy r b σ.
Proof. intros E. unfold revokeProxy. rewrite E. reflexivity. Qed.

(** X26. A disposition reads the context and the request URI of a request
    and nothing else; censoring the cookies first therefore makes no
    difference to it: the run on the request returned by [filterCookies] is
    the run on the request itself. *)
Theorem dispose_after_filterCookies (d : disposition) (r : oauthProxy)
    (req : Request) (filter : list string) (σ : World) :
  dispose d r (fst (filterCookies req filter)) σ = dispose d r req σ.
Proof.
  destruct (filterCookies_rebuilt req filter) as (_ & Huri & Hctx).
  rewrite !dispose_revokes.
  assert (Hev : dispose_events d r (fst (filterCookies req filter))
                = dispose_events d r req).
  { destruct d as [| | url |]; cbn [dispose_events]; try reflexivity.
    rewrite Huri. reflexivity. }
  assert (Hrev : forall σ0,
             revokeProxy r (fst (filterCookies req filter)) σ0
             = revokeProxy r req σ0).
  { intros σ0. apply revokeProxy_reads, Hctx. }
  rewrite Hev.
  destruct d as [| | url |]; try apply Hrev.
  destruct (NoRedirects (config r) || SkipTokenVerification (config r));
    [apply Hrev |].
  unfold bind. rewrite Hrev.
  destruct (revokeProxy r req _); [apply Hrev | reflexivity].
Qed.

(** X27. The request URI matters to [redirectToAuthorization] only when it
    redirects: with redirects switched off, or with token verification
    skipped, the run is the same for every request URI (the state that is
    computed before the 403 reply is not used). *)
Theorem redirectToAuthorization_ignores_uri (r : oauthProxy) (req : Request)
    (uri : string) (σ : World) :
  NoRedirects (config r) || SkipTokenVerification (config r) = true ->
  redirectToAuthorization r (with_RequestURI req uri) σ
  = redirectToAuthorization r req σ.
Proof.
  intros Hflags. rewrite !redirectToAuthorization_cases.
  destruct (NoRedirects (config r));
    [apply revokeProxy_reads; reflexivity |].
  destruct (SkipTokenVerification (config r)); [| discriminate Hflags].
  apply revokeProxy_reads. reflexivity.
Qed.

Lemma redirectToAuthorization_ignores_uri_witness :
  redirectToAuthorization (sample_proxy false true)
    (with_RequestURI sample_scoped_request "/other") (sample_scoped_world false)
  = redirectToAuthorization (sample_proxy false true) sample_scoped_request
      (sample_scoped_world false).
Proof.
  apply redirectToAuthorization_ignores_uri. reflexivity.
Defined.
